(** * mediathekview-cli: a shallow embedding of the client

    The command-line client is one JavaScript module ([index.js]; in the
    sources at hand it follows the help text in [help.js]): it loads the
    preferences file, parses the options, opens a socket and, once
    connected, runs one action ([listChannels], [searchMovies],
    [getAndDownloadVideo] or [startInteractiveMode]).

    Modelling conventions.
    - JavaScript strings are [string]s.  The string operations the program
      applies ([toLowerCase] before the lookup of [hd], [medium], [low];
      [trim]; [split(',')]; [startsWith('~/')]) are modelled on the ASCII
      range and leave other bytes alone.  For the lookup this loses
      nothing: no character outside ASCII lower-cases into a string made
      of the letters of the three keys only.
    - A property that may be missing, [null] or a string is an
      [option string]; it is truthy when it holds a non-empty string.
      Values of other JavaScript types in these places (a boolean written
      in the preferences file, say) are outside the model.
    - Everything the program obtains from outside (the file system, HTTP
      responses, socket replies, prompt answers, the [which mpv] probe,
      the download stream, [os.homedir()]) is an argument: a field of the
      record [World].  Every request is answered; a backend that never
      replies is not modelled.
    - Effects are kept in a small monad [proc]: a computation yields the
      list of observable events it performed and either a value, a thrown
      exception (a rejected promise is one) or a call of [process.exit].
    - [debug(...)] only prints when [--debug] is set and never changes
      control flow; it is left out. *)

From Stdlib Require Import String Ascii List ZArith Bool Arith Lia.
Import ListNotations.
Local Open Scope string_scope.
Local Open Scope list_scope.

(** ** JavaScript values used by the program *)

(** [!!v] for a value that is [undefined]/[null] or a string. *)
Definition truthy (v : option string) : bool :=
  match v with
  | Some s => negb (s =? "")
  | None => false
  end.

(** [v || d] on such values. *)
Definition or_default (v : option string) (d : option string) : option string :=
  if truthy v then v else d.

Definition is_upper (c : ascii) : bool :=
  let n := nat_of_ascii c in (65 <=? n)%nat && (n <=? 90)%nat.

Definition lower_ascii (c : ascii) : ascii :=
  if is_upper c then ascii_of_nat (nat_of_ascii c + 32) else c.

(** [String.prototype.toLowerCase]. *)
Fixpoint toLowerCase (s : string) : string :=
  match s with
  | EmptyString => EmptyString
  | String c r => String (lower_ascii c) (toLowerCase r)
  end.

(** White space recognised by [trim] (tab, line feed, vertical tab, form
    feed, carriage return, space). *)
Definition is_space (c : ascii) : bool :=
  let n := nat_of_ascii c in
  ((9 <=? n)%nat && (n <=? 13)%nat) || (n =? 32)%nat.

Fixpoint trimStart (s : string) : string :=
  match s with
  | String c r => if is_space c then trimStart r else s
  | EmptyString => EmptyString
  end.

Fixpoint trimEnd (s : string) : string :=
  match s with
  | EmptyString => EmptyString
  | String c r =>
      match trimEnd r with
      | EmptyString => if is_space c then EmptyString else String c EmptyString
      | r' => String c r'
      end
  end.

(** [String.prototype.trim]. *)
Definition trim (s : string) : string := trimEnd (trimStart s).

(** [s.split(sep)] for a one-character separator: the pieces between the
    separators, in order; a string without separator is its own single
    piece. *)
Fixpoint split (sep : ascii) (s : string) : list string :=
  match s with
  | EmptyString => [EmptyString]
  | String c r =>
      if Ascii.eqb c sep then EmptyString :: split sep r
      else match split sep r with
           | p :: ps => String c p :: ps
           | [] => [String c EmptyString]
           end
  end.

(** [arr.includes(x)] on an array of strings. *)
Definition includes (l : list string) (x : string) : bool :=
  existsb (String.eqb x) l.

(** ** Data model *)

(** One media item as the backend returns it.  The three asset URLs are
    the properties [url_video_hd], [url_video] and [url_video_low]. *)
Record Entry := mkEntry {
  id : string;
  title : string;
  channel : string;
  duration : Z;
  timestamp : Z;
  url_video_hd : option string;
  url_video : option string;
  url_video_low : option string
}.

(** The property names quality selection works with. *)
Inductive propkey := Url_video_hd | Url_video | Url_video_low.

(** [video[k]] for one of the three URL properties. *)
Definition get_url (video : Entry) (k : propkey) : option string :=
  match k with
  | Url_video_hd => url_video_hd video
  | Url_video => url_video video
  | Url_video_low => url_video_low video
  end.

(** What a lookup [qualityMap[key]] can produce: one of the three property
    names (an own property of the literal), or a member inherited from
    [Object.prototype], which is truthy but is neither a string nor the
    name of a property of an [Entry]. *)
Inductive mapval := MKey (k : propkey) | MInherited.

Definition object_prototype_keys : list string :=
  [ "constructor"; "__proto__"; "hasOwnProperty"; "isPrototypeOf";
    "propertyIsEnumerable"; "toLocaleString"; "toString"; "valueOf";
    "__defineGetter__"; "__defineSetter__"; "__lookupGetter__";
    "__lookupSetter__" ].

(** [qualityMap[key]] where
    [qualityMap = {hd: 'url_video_hd', medium: 'url_video', low: 'url_video_low'}]. *)
Definition qualityMap (key : string) : option mapval :=
  if key =? "hd" then Some (MKey Url_video_hd)
  else if key =? "medium" then Some (MKey Url_video)
  else if key =? "low" then Some (MKey Url_video_low)
  else if includes object_prototype_keys key then Some MInherited
  else None.

(** [video[m]] for the result of a [qualityMap] lookup. *)
Definition get_mapval (video : Entry) (m : mapval) : option string :=
  match m with
  | MKey k => get_url video k
  | MInherited => None
  end.

(** ** Events, exceptions and the [proc] monad *)

Inductive choice := Play | Download | Cancel.

(** Search query sent with the [queryEntries] event. *)
Record clause := mkClause { fields : list string; query : string }.

Record SearchQuery := mkQuery {
  queries : list clause;
  sortBy : string;
  sortOrder : string;
  future : bool;
  offset : Z;
  size : option (option Z)   (* absent; or [parseInt]'s result, [None] for NaN *)
}.

Inductive exn :=
| FetchError (m : string)      (* [fetch] or [response.json()] rejected *)
| TypeError (m : string)       (* property access on [undefined] *)
| Rejection (payload : string) (* promise rejected with a backend payload *)
| Error (m : string)           (* [new Error(...)] *)
| StreamError (m : string).    (* 'error' on the response body *)

(** Messages written with [console.log] / [console.error] and the spinner. *)
Inductive msg :=
| MConnected (server : string)
| MConnectionError (e : string)
| MCreatedConfig
| MWarnCreateConfig
| MWarnParseConfig
| MNoChannelsAvailable
| MFailedFetchChannels (e : exn)
| MSearchingIn (ch : string)
| MSearchingAll
| MExcluding (ex : string)
| MErrorLoadingChannels (e : string)
| MAvailableChannels
| MChannelLine (ch : string)
| MErrorSearching (e : string)
| MExcluded (excludedCount : nat) (chs : list string)
| MDownloadingTo (filename : string)
| MPlaying
| MPlayerExited (code : Z)
| MCancelled
| MTitle (t : string)
| MChannel (ch : string)
| MDuration (d : Z)
| MSelectedQuality (q : string)
| MSelectedHigh
| MSelectedMedium
| MSelectedLow
| MNoResults
| MFound (n : nat)
| MDescription (d : string)
| MDescriptionUnavailable
| MInteractiveFailed (e : exn)
| MException (e : exn)
| MApiError (e : string)
| MUnhandled (e : exn).

Inductive spin :=
| SStart (text : string)
| SStop
| SSucceed (text : string)
| SFail (text : string).

Inductive event :=
| Log (m : msg)                     (* console.log *)
| Err (m : msg)                     (* console.error *)
| Spinner (s : spin)
| WriteConfig                       (* fs.writeFileSync(CONFIG_FILE, ...) *)
| FetchChannels                     (* GET /api/channels *)
| FetchEntries (ids : list string)  (* POST /api/entries *)
| FetchUrl (url : option string)    (* fetch(url) of the asset *)
| EmitQuery (q : SearchQuery)       (* socket.emit('queryEntries', ...) *)
| EmitDescription (i : string)      (* socket.emit('getDescription', ...) *)
| PromptChannel (names : list string)
| PromptQuery
| PromptVideo (n : nat)
| PromptFilename (default : string)
| PromptAction
| SpawnWhich
| SpawnPlayer (url : option string)
| OpenFile (filename : string).

Inductive outcome (A : Type) :=
| Ret (a : A)
| Throw (e : exn)
| Exit (code : Z).
Arguments Ret {A} a.
Arguments Throw {A} e.
Arguments Exit {A} code.

Definition proc (A : Type) : Type := list event * outcome A.

Definition ret {A} (a : A) : proc A := ([], Ret a).
Definition throw {A} (e : exn) : proc A := ([], Throw e).
Definition exit {A} (code : Z) : proc A := ([], Exit code).
Definition emit (e : event) : proc unit := ([e], Ret tt).

Definition bind {A B} (p : proc A) (k : A -> proc B) : proc B :=
  match p with
  | (tr, Ret a) => let (tr', o) := k a in (tr ++ tr', o)
  | (tr, Throw e) => (tr, Throw e)
  | (tr, Exit c) => (tr, Exit c)
  end.

(** [try { p } catch (e) { h e }]; [process.exit] is not an exception. *)
Definition try_catch {A} (p : proc A) (h : exn -> proc A) : proc A :=
  match p with
  | (tr, Throw e) => let (tr', o) := h e in (tr ++ tr', o)
  | _ => p
  end.

Declare Scope proc_scope.
Delimit Scope proc_scope with proc.
Notation "x <- c ;; k" := (bind c (fun x => k))
  (at level 61, c at next level, right associativity) : proc_scope.
Notation "c ;; k" := (bind c (fun _ => k))
  (at level 61, right associativity) : proc_scope.
Local Open Scope proc_scope.

Definition trace {A} (p : proc A) : list event := fst p.
Definition result {A} (p : proc A) : outcome A := snd p.

(** ** Quality selection

    The block "Automatically select quality based on command line
    preference or select highest available" occurs twice, word for word,
    in [getAndDownloadVideo] and in [startInteractiveMode]. *)

(** First half: [if (options.quality && qualityMap[options.quality.toLowerCase()])]. *)
Definition preferred (quality_opt : string) (video : Entry) : option propkey :=
  if truthy (Some quality_opt) then
    match qualityMap (toLowerCase quality_opt) with
    | Some preferredQuality =>
        if truthy (get_mapval video preferredQuality) then
          match preferredQuality with
          | MKey k => Some k
          | MInherited => None
          end
        else None
    | None => None
    end
  else None.

(** Second half: [if (!quality) { hd, else medium, else low }]. *)
Definition highest (video : Entry) : option propkey :=
  if truthy (url_video_hd video) then Some Url_video_hd
  else if truthy (url_video video) then Some Url_video
  else if truthy (url_video_low video) then Some Url_video_low
  else None.

(** The value of [quality] after the block; [None] is [undefined]. *)
Definition select (quality_opt : string) (video : Entry) : option propkey :=
  match preferred quality_opt video with
  | Some k => Some k
  | None => highest video
  end.

(** The same block with its [console.log] lines. *)
Definition selectQuality (quality_opt : string) (video : Entry) : proc (option propkey) :=
  match preferred quality_opt video with
  | Some k => emit (Log (MSelectedQuality quality_opt)) ;; ret (Some k)
  | None =>
      if truthy (url_video_hd video) then
        emit (Log MSelectedHigh) ;; ret (Some Url_video_hd)
      else if truthy (url_video video) then
        emit (Log MSelectedMedium) ;; ret (Some Url_video)
      else if truthy (url_video_low video) then
        emit (Log MSelectedLow) ;; ret (Some Url_video_low)
      else ret None
  end.

(** [video[quality]]; [video[undefined]] is [undefined]. *)
Definition selected_url (video : Entry) (quality : option propkey) : option string :=
  match quality with
  | Some k => get_url video k
  | None => None
  end.

(** ** Tilde expansion *)

(** The replacement text of [String.prototype.replace] when the second
    argument is a string and the pattern has no capture group: [$$] is a
    dollar sign, [$&] the matched text, [$`] the text before the match,
    [$'] the text after it; any other [$] stands for itself. *)
Fixpoint getSubstitution (matched before after template : string) : string :=
  match template with
  | EmptyString => EmptyString
  | String a t =>
      if Ascii.eqb a "$" then
        match t with
        | String c r =>
            if Ascii.eqb c "$" then String "$" (getSubstitution matched before after r)
            else if Ascii.eqb c "&" then matched ++ getSubstitution matched before after r
            else if Ascii.eqb c "`" then before ++ getSubstitution matched before after r
            else if Ascii.eqb c "'" then after ++ getSubstitution matched before after r
            else String a (getSubstitution matched before after t)
        | EmptyString => String a EmptyString
        end
      else String a (getSubstitution matched before after t)
  end.

(** [s.replace(/^~(?=$|\/|\\)/, replacement)]: a leading tilde that is
    followed by the end of the string, a slash or a backslash is replaced. *)
Definition replace_leading_tilde (s replacement : string) : string :=
  match s with
  | String a rest =>
      if Ascii.eqb a "~" then
        let lookahead :=
          match rest with
          | EmptyString => true
          | String c _ => Ascii.eqb c "/" || Ascii.eqb c "\"
          end in
        if lookahead then getSubstitution "~" "" rest replacement ++ rest else s
      else s
  | EmptyString => s
  end.

(** [expandTildePath(pathWithTilde)] for a string argument; [homedir] is
    the value of [os.homedir()]. *)
Definition expandTildePath (homedir : string) (pathWithTilde : string) : string :=
  if String.prefix "~/" pathWithTilde || (pathWithTilde =? "~") then
    replace_leading_tilde pathWithTilde homedir
  else pathWithTilde.

(** [path.isAbsolute] (POSIX). *)
Definition isAbsolute (p : string) : bool := String.prefix "/" p.

(** ** [parseInt(s, 10)] *)

Definition digit_of (c : ascii) : option Z :=
  let n := nat_of_ascii c in
  if (48 <=? n)%nat && (n <=? 57)%nat then Some (Z.of_nat (n - 48)) else None.

Fixpoint parse_digits (acc : option Z) (s : string) : option Z :=
  match s with
  | EmptyString => acc
  | String c r =>
      match digit_of c with
      | Some d =>
          parse_digits (Some (match acc with Some a => 10 * a + d | None => d end)%Z) r
      | None => acc
      end
  end.

(** Leading white space is skipped, an optional sign is read, then the
    longest run of decimal digits; [None] is [NaN]. *)
Definition parseInt (s : string) : option Z :=
  match trimStart s with
  | String c r =>
      if Ascii.eqb c "-" then option_map Z.opp (parse_digits None r)
      else if Ascii.eqb c "+" then parse_digits None r
      else parse_digits None (String c r)
  | EmptyString => None
  end.

(** ** The outside world *)

Inductive attempt (A : Type) := Ok (a : A) | Fails (e : exn).
Arguments Ok {A} a.
Arguments Fails {A} e.

(** Body of [GET /api/channels] after [response.json()]. *)
Record channels_data := mkChannels {
  ch_error : option string;           (* [data.error] *)
  ch_channels : option (list string)  (* [data.channels] *)
}.

(** Body of [POST /api/entries] after [response.json()]. *)
Record result_obj := mkResult { res_results : option (list Entry) }.
Record entries_data := mkEntries {
  en_err : option string;             (* [data.err] *)
  en_result : option result_obj       (* [data.result] *)
}.

(** Reply to [queryEntries]. *)
Record query_response := mkResponse {
  r_err : option string;              (* [response.err] *)
  r_results : list Entry              (* [response.result.results] *)
}.

(** Response of [fetch(url)] for the asset. *)
Record asset_response := mkAsset { ok : bool; statusText : string }.

(** The preferences file as parsed by [ini]. *)
Record config := mkConfig {
  cfg_server : option string;
  cfg_channel : option string;
  cfg_quality : option string;
  cfg_limit : option string;
  cfg_exclude : option string;
  cfg_output : option string
}.

(** The object [{}]. *)
Definition empty_config : config := mkConfig None None None None None None.

Record World := mkWorld {
  homedir : string;                                    (* os.homedir() *)
  cwd : string;                                        (* process.cwd() *)
  path_join : string -> string -> string;              (* path.join *)
  config_file : option (attempt string);               (* None: no file; else readFileSync *)
  ini_parse : string -> attempt config;                (* ini's parse *)
  write_config : attempt unit;                         (* fs.writeFileSync *)
  select_channels : attempt channels_data;             (* fetch in the connect handler *)
  list_channels : attempt channels_data;               (* fetch in listChannels *)
  interactive_channels : attempt channels_data;        (* fetch in startInteractiveMode *)
  entries : list string -> attempt entries_data;       (* fetch of /api/entries *)
  backend : SearchQuery -> query_response;             (* reply to queryEntries *)
  description : string -> string;                      (* reply to getDescription *)
  answer_channel : list string -> option string;       (* 'Select channel:' *)
  answer_query : string;                               (* 'Enter search query:' *)
  answer_video : list Entry -> Entry;                  (* 'Select a video:' *)
  answer_filename : string -> string;                  (* 'Enter filename ...' *)
  mpv_available : bool;                                (* exit code of `which mpv` is 0 *)
  answer_action : choice;                              (* 'Would you like to play or download?' *)
  player_exit : Z;                                     (* exit code of mpv *)
  asset : option string -> attempt asset_response;     (* fetch(url) *)
  stream : attempt unit                                (* piping the body to the file *)
}.

(** ** Options *)

(** [options.channel]: not set, [true] (flag without value), a name, or
    [null] (after the selection step). *)
Inductive channel_opt :=
| ChannelUnset
| ChannelFlag
| ChannelName (name : string)
| ChannelNull.

Record options := mkOptions {
  opt_server : string;
  opt_channels : bool;
  opt_query : option string;
  opt_download : option string;
  opt_output : option string;
  opt_interactive : bool;
  opt_limit : option string;
  opt_channel : channel_opt;
  opt_exclude : option string;
  opt_quality : string;
  opt_debug : bool
}.

(** The value of [options.channel] as a string-or-nothing; [true] is
    handled before any action reads it. *)
Definition channel_value (c : channel_opt) : option string :=
  match c with
  | ChannelName s => Some s
  | _ => None
  end.

Definition set_channel (o : options) (c : channel_opt) : options :=
  mkOptions (opt_server o) (opt_channels o) (opt_query o) (opt_download o)
    (opt_output o) (opt_interactive o) (opt_limit o) c (opt_exclude o)
    (opt_quality o) (opt_debug o).

(** What the command line supplies. *)
Record argv := mkArgv {
  arg_server : option string;
  arg_channels : bool;
  arg_query : option string;
  arg_download : option string;
  arg_output : option string;
  arg_interactive : bool;
  arg_limit : option string;
  arg_channel : option (option string);   (* [-c] absent, bare, or with a name *)
  arg_exclude : option string;
  arg_quality : option string;
  arg_debug : bool
}.

Definition DEFAULT_SERVER : string := "https://mediathekviewweb.de".

Definition or_else {A} (a : option A) (d : A) : A :=
  match a with Some x => x | None => d end.

(** [program.option(...)....parse(process.argv); program.opts()]: a value
    given on the command line wins over the declared default. *)
Definition parse_options (configDefaults : config) (a : argv) : options :=
  {| opt_server :=
       or_else (arg_server a)
         (or_else (or_default (cfg_server configDefaults) (Some DEFAULT_SERVER)) "");
     opt_channels := arg_channels a;
     opt_query := arg_query a;
     opt_download := arg_download a;
     opt_output :=
       match arg_output a with Some p => Some p | None => cfg_output configDefaults end;
     opt_interactive := arg_interactive a;
     opt_limit :=
       match arg_limit a with Some l => Some l | None => cfg_limit configDefaults end;
     opt_channel :=
       match arg_channel a with
       | Some (Some name) => ChannelName name
       | Some None => ChannelFlag
       | None =>
           match cfg_channel configDefaults with
           | Some name => ChannelName name
           | None => ChannelUnset
           end
       end;
     opt_exclude :=
       match arg_exclude a with Some e => Some e | None => cfg_exclude configDefaults end;
     opt_quality :=
       or_else (arg_quality a)
         (or_else (or_default (cfg_quality configDefaults) (Some "hd")) "");
     opt_debug := arg_debug a |}.

(** ** Configuration file *)

Definition createDefaultConfig (w : World) : proc bool :=
  match config_file w with
  | None =>
      match write_config w with
      | Ok _ => emit WriteConfig ;; emit (Log MCreatedConfig) ;; ret true
      | Fails _ => emit (Err MWarnCreateConfig) ;; ret false
      end
  | Some _ => ret false
  end.

Definition set_output (c : config) (o : option string) : config :=
  mkConfig (cfg_server c) (cfg_channel c) (cfg_quality c) (cfg_limit c)
    (cfg_exclude c) o.

Definition loadConfig (w : World) : proc config :=
  try_catch
    (match config_file w with
     | Some file =>
         configContent <- match file with Ok s => ret s | Fails e => throw e end ;;
         config <- match ini_parse w configContent with
                   | Ok c => ret c
                   | Fails e => throw e
                   end ;;
         ret (if truthy (cfg_output config)
              then set_output config
                     (option_map (expandTildePath (homedir w)) (cfg_output config))
              else config)
     | None =>
         createDefaultConfig w ;;
         ret empty_config
     end)
    (fun err => emit (Err MWarnParseConfig) ;; ret empty_config).

(** ** Search *)

Definition excludedChannelsList (excludeChannels : option string) : list string :=
  match excludeChannels with
  | Some s => if truthy excludeChannels then map trim (split "," s) else []
  | None => []
  end.

Definition build_query (query : string) (channel limit : option string) : SearchQuery :=
  {| queries :=
       mkClause ["title"; "topic"] query ::
       match channel with
       | Some ch => if truthy channel then [mkClause ["channel"] ch] else []
       | None => []
       end;
     sortBy := "timestamp";
     sortOrder := "desc";
     future := false;
     offset := 0;
     size :=
       match limit with
       | Some l => if truthy limit then Some (parseInt l) else None
       | None => None
       end |}.

(** [results.filter(item => !excludedChannelsList.includes(item.channel))]. *)
Definition drop_excluded (excluded : list string) (results : list Entry) : list Entry :=
  filter (fun item => negb (includes excluded (channel item))) results.

(** The callback given to [socket.emit('queryEntries', ...)]. *)
Definition on_response (excluded : list string) (response : query_response)
  : proc (list Entry) :=
  emit (Spinner SStop) ;;
  if truthy (r_err response) then
    emit (Err (MErrorSearching (or_else (r_err response) ""))) ;;
    throw (Rejection (or_else (r_err response) ""))
  else
    let results := r_results response in
    if (0 <? length excluded)%nat then
      let originalCount := length results in
      let results := drop_excluded excluded results in
      let excludedCount := originalCount - length results in
      (if (0 <? excludedCount)%nat
       then emit (Log (MExcluded excludedCount excluded))
       else ret tt) ;;
      ret results
    else ret results.

(** [searchMovies(query, channel, limit, excludeChannels)].  The promise it
    returns rejects when the reply carries [err]; that rejection is the
    [Throw] of this computation.  (The [catch] clause of the function only
    guards the synchronous construction of the query, which cannot throw
    on string arguments.) *)
Definition searchMovies (w : World) (query : string)
    (channel limit excludeChannels : option string) : proc (list Entry) :=
  emit (Spinner (SStart "Searching...")) ;;
  let searchQuery := build_query query channel limit in
  let excluded := excludedChannelsList excludeChannels in
  emit (EmitQuery searchQuery) ;;
  on_response excluded (backend w searchQuery).

(** [getVideoDetails(id)]. *)
Definition getVideoDetails (w : World) (i : string) : proc string :=
  emit (EmitDescription i) ;;
  let description := description w i in
  if String.prefix "error:" description || (description =? "document not found")
  then throw (Error description)
  else ret description.

(** ** Download *)

(** The characters the pattern of [video.title.replace(..., '_')] lists:
    backslash, slash, colon, star, question mark, double quote, angle
    brackets and bar; each occurrence becomes an underscore. *)
Definition reserved (c : ascii) : bool :=
  existsb (Ascii.eqb c) ["\"; "/"; ":"; "*"; "?"; ascii_of_nat 34; "<"; ">"; "|"]%char.

Fixpoint sanitize (s : string) : string :=
  match s with
  | EmptyString => EmptyString
  | String c r => String (if reserved c then "_"%char else c) (sanitize r)
  end.

Definition lift {A} (a : attempt A) : proc A :=
  match a with
  | Ok x => ret x
  | Fails e => throw e
  end.

Definition emit_if (b : bool) (e : event) : proc unit :=
  if b then emit e else ret tt.

(** Tilde expansion, then [path.isAbsolute] / [path.join(process.cwd(), _)]. *)
Definition resolve_path (w : World) (p : string) : string :=
  let expandedPath := expandTildePath (homedir w) p in
  if isAbsolute expandedPath then expandedPath
  else path_join w (cwd w) expandedPath.

(** [downloadVideo(url, filename, video)].  The ['data'] handler of the
    body only updates the spinner text; the transfer is summarised by
    [stream w]. *)
Definition downloadVideo (w : World) (o : options) (url : option string)
    (filename : string) (video : Entry) : proc unit :=
  filename <-
    (if truthy (opt_output o) then
       ret (resolve_path w (or_else (opt_output o) ""))
     else
       let sanitizedTitle := sanitize (title video) in
       let defaultFilename := (sanitizedTitle ++ "-" ++ channel video ++ ".mp4")%string in
       emit (PromptFilename defaultFilename) ;;
       let customFilename := answer_filename w defaultFilename in
       if negb (customFilename =? defaultFilename)
       then ret (resolve_path w customFilename)
       else ret (path_join w (cwd w) defaultFilename)) ;;
  emit (Log (MDownloadingTo filename)) ;;
  emit (Spinner (SStart "Starting download...")) ;;
  try_catch
    (emit SpawnWhich ;;
     proceed <-
       (if mpv_available w then
          emit (Spinner SStop) ;;
          emit PromptAction ;;
          match answer_action w with
          | Play =>
              emit (Log MPlaying) ;;
              emit (SpawnPlayer url) ;;
              emit (Log (MPlayerExited (player_exit w))) ;;
              ret false
          | Cancel => emit (Log MCancelled) ;; ret false
          | Download => emit (Spinner (SStart "Downloading...")) ;; ret true
          end
        else ret true) ;;
     if proceed then
       emit (FetchUrl url) ;;
       response <- lift (asset w url) ;;
       if negb (ok response) then
         emit (Spinner (SFail ("Failed to download: " ++ statusText response)))
       else
         emit (OpenFile filename) ;;
         lift (stream w) ;;
         emit (Spinner (SSucceed "Download complete!"))
     else ret tt)
    (fun error =>
       emit (Spinner (SFail "Download failed")) ;;
       emit (Err (MException error))).

(** The three [console.log] lines "Show video details". *)
Definition show_details (video : Entry) : proc unit :=
  emit (Log (MTitle (title video))) ;;
  emit (Log (MChannel (channel video))) ;;
  emit (Log (MDuration (duration video))).

(** ** Download by identifier *)

Definition getAndDownloadVideo (w : World) (o : options) (i : string) : proc unit :=
  emit (Spinner (SStart ("Fetching video details for ID: " ++ i))) ;;
  try_catch
    (emit (FetchEntries [i]) ;;
     data <- lift (entries w [i]) ;;
     (if truthy (en_err data) then
        emit (Spinner (SFail "Error fetching video details")) ;;
        emit (Err (MApiError (or_else (en_err data) ""))) ;;
        exit 1
      else ret tt) ;;
     result <- match en_result data with
               | Some r => ret r
               | None =>
                   throw (TypeError
                            "Cannot read properties of undefined (reading 'results')")
               end ;;
     video <- match res_results result with
              | Some (video :: _) => ret video
              | Some [] | None =>
                  emit (Spinner (SFail ("No video found with ID: " ++ i))) ;;
                  exit 1
              end ;;
     emit (Spinner (SSucceed "Video details fetched")) ;;
     show_details video ;;
     quality <- selectQuality (opt_quality o) video ;;
     downloadVideo w o (selected_url video quality) "" video)
    (fun error =>
       emit (Spinner (SFail "Failed to process video")) ;;
       emit (Err (MException error))) ;;
  exit 0.

(** ** Channel list *)

Fixpoint insert_sorted (x : string) (l : list string) : list string :=
  match l with
  | [] => [x]
  | y :: r => if String.leb x y then x :: l else y :: insert_sorted x r
  end.

(** [Array.prototype.sort] without comparator, on strings. *)
Definition sort (l : list string) : list string :=
  fold_right insert_sorted [] l.

Definition listChannels (w : World) : proc unit :=
  emit (Spinner (SStart "Loading channels...")) ;;
  try_catch
    (emit FetchChannels ;;
     data <- lift (list_channels w) ;;
     emit (Spinner (SSucceed "Channels loaded")) ;;
     if truthy (ch_error data) then
       emit (Err (MErrorLoadingChannels (or_else (ch_error data) "")))
     else
       emit (Log MAvailableChannels) ;;
       channels <- match ch_channels data with
                   | Some l => ret l
                   | None =>
                       throw (TypeError
                                "Cannot read properties of undefined (reading 'sort')")
                   end ;;
       (map (fun ch => Log (MChannelLine ch)) (sort channels), Ret tt))
    (fun error =>
       emit (Spinner (SFail "Failed to load channels")) ;;
       emit (Err (MException error))) ;;
  exit 0.

(** ** Interactive mode *)

Definition startInteractiveMode (w : World) (o : options) : proc unit :=
  try_catch
    (emit FetchChannels ;;
     data <- lift (interactive_channels w) ;;
     let channels := or_else (ch_channels data) [] in
     emit PromptQuery ;;
     let searchQuery := answer_query w in
     let selectedChannel := or_default (channel_value (opt_channel o)) None in
     let limit := or_default (opt_limit o) None in
     let excludeChannels := or_default (opt_exclude o) None in
     emit_if (truthy excludeChannels) (Log (MExcluding (or_else excludeChannels ""))) ;;
     results <- searchMovies w searchQuery selectedChannel limit excludeChannels ;;
     (if (length results =? 0)%nat then emit (Log MNoResults) ;; exit 0 else ret tt) ;;
     emit (Log (MFound (length results))) ;;
     emit (PromptVideo (length results)) ;;
     let selectedVideo := answer_video w results in
     show_details selectedVideo ;;
     try_catch
       (description <- getVideoDetails w (id selectedVideo) ;;
        emit (Log (MDescription description)))
       (fun error => emit (Log MDescriptionUnavailable)) ;;
     quality <- selectQuality (opt_quality o) selectedVideo ;;
     downloadVideo w o (selected_url selectedVideo quality) "" selectedVideo)
    (fun error => emit (Err (MInteractiveFailed error))) ;;
  exit 0.

(** ** The connect handler *)

(** "If --channel is specified without a value, prompt for channel". *)
Definition resolve_channel (w : World) (o : options) : proc options :=
  match opt_channel o with
  | ChannelFlag =>
      try_catch
        (emit FetchChannels ;;
         data <- lift (select_channels w) ;;
         let channels := or_else (ch_channels data) [] in
         if (0 <? length channels)%nat then
           emit (PromptChannel ("ALL - No channel filter" :: channels)) ;;
           ret (set_channel o
                  match answer_channel w channels with
                  | Some selectedChannel => ChannelName selectedChannel
                  | None => ChannelNull
                  end)
         else
           emit (Log MNoChannelsAvailable) ;;
           ret (set_channel o ChannelNull))
        (fun error =>
           emit (Err (MFailedFetchChannels error)) ;;
           ret (set_channel o ChannelNull))
  | _ => ret o
  end.

Inductive action := ListChannels | Search | DownloadById | Interactive.

(** "Process command line options": the [if]/[else if] chain. *)
Definition dispatch (o : options) : action :=
  if opt_channels o then ListChannels
  else if truthy (opt_query o) then Search
  else if truthy (opt_download o) then DownloadById
  else if opt_interactive o then Interactive
  else Interactive.

Definition run_action (w : World) (o : options) (a : action) : proc unit :=
  match a with
  | ListChannels => listChannels w
  | Search =>
      (if truthy (channel_value (opt_channel o))
       then emit (Log (MSearchingIn (or_else (channel_value (opt_channel o)) "")))
       else emit (Log MSearchingAll)) ;;
      emit_if (truthy (opt_exclude o)) (Log (MExcluding (or_else (opt_exclude o) ""))) ;;
      searchMovies w (or_else (opt_query o) "") (channel_value (opt_channel o))
        (opt_limit o) (opt_exclude o) ;;
      ret tt
  | DownloadById => getAndDownloadVideo w o (or_else (opt_download o) "")
  | Interactive => startInteractiveMode w o
  end.

Definition on_connect (w : World) (o : options) : proc unit :=
  emit (Log (MConnected (opt_server o))) ;;
  o' <- resolve_channel w o ;;
  run_action w o' (dispatch o').

(** [socket.on('error', ...)]. *)
Definition on_error (error : string) : proc unit :=
  emit (Err (MConnectionError error)) ;;
  exit 1.

(** ** The process *)

(** How a run ends: [process.exit(code)] was called, or the program is
    still waiting on its open socket. *)
Inductive status := Exited (code : Z) | Running.

(** The handlers of ['uncaughtException'] and ['unhandledRejection']
    print the fault and call [process.exit(1)]. *)
Definition at_boundary (p : proc unit) : list event * status :=
  match p with
  | (tr, Ret _) => (tr, Running)
  | (tr, Exit code) => (tr, Exited code)
  | (tr, Throw e) => (tr ++ [Err (MUnhandled e)], Exited 1)
  end.

(** What the socket reports first. *)
Inductive socket_event := Connect | SocketError (error : string).

(** The module from top to bottom: load the configuration, parse the
    options, then react to the socket. *)
Definition main (w : World) (a : argv) (s : socket_event) : list event * status :=
  at_boundary
    (configDefaults <- loadConfig w ;;
     let options := parse_options configDefaults a in
     match s with
     | Connect => on_connect w options
     | SocketError error => on_error error
     end).

(** * Properties *)

(** ** Generic facts about [proc] *)

Lemma bind_ret A B (tr : list event) (a : A) (k : A -> proc B) :
  bind (tr, Ret a) k = (tr ++ trace (k a), result (k a)).
Proof. unfold bind, trace, result. destruct (k a); reflexivity. Qed.

Lemma bind_exit A B (tr : list event) (c : Z) (k : A -> proc B) :
  bind (tr, Exit c) k = (tr, Exit c).
Proof. reflexivity. Qed.

Lemma bind_throw A B (tr : list event) (e : exn) (k : A -> proc B) :
  bind (tr, Throw e) k = (tr, Throw e).
Proof. reflexivity. Qed.

Lemma proc_eta A (p : proc A) : p = (trace p, result p).
Proof. destruct p; reflexivity. Qed.

Lemma result_bind_ret A B (p : proc A) (a : A) (k : A -> proc B) :
  result p = Ret a -> result (bind p k) = result (k a).
Proof.
  destruct p as [tr o]; simpl; intros ->.
  unfold bind. destruct (k a); reflexivity.
Qed.

Lemma trace_bind_ret A B (p : proc A) (a : A) (k : A -> proc B) :
  result p = Ret a -> trace (bind p k) = trace p ++ trace (k a).
Proof.
  destruct p as [tr o]; simpl; intros ->.
  unfold bind. destruct (k a); reflexivity.
Qed.

(** A [try]/[catch] whose handler returns normally never throws. *)
Lemma try_catch_total A (p : proc A) (h : exn -> proc A) :
  (forall e, exists a, result (h e) = Ret a) ->
  (exists a, result (try_catch p h) = Ret a) \/
  (exists c, result p = Exit c /\ result (try_catch p h) = Exit c).
Proof.
  intros Hh. destruct p as [tr [a | e | c]]; simpl.
  - left; eauto.
  - destruct (Hh e) as [a Ha]. left. exists a.
    unfold result in *. destruct (h e); simpl in *; assumption.
  - right; eauto.
Qed.

(** ** Quality selection *)

(** The fallback order of the tiers, as the specification words it. *)
Definition fallback_order : list propkey := [Url_video_hd; Url_video; Url_video_low].

(** The first tier of the fallback order whose URL is non-empty. *)
Definition first_available (video : Entry) : option propkey :=
  find (fun k => truthy (get_url video k)) fallback_order.

Lemma highest_first_available video : highest video = first_available video.
Proof.
  unfold highest, first_available, fallback_order; simpl.
  destruct (truthy (url_video_hd video)); [reflexivity|].
  destruct (truthy (url_video video)); [reflexivity|].
  destruct (truthy (url_video_low video)); reflexivity.
Qed.

Lemma highest_none video :
  highest video = None <->
  truthy (url_video_hd video) = false /\
  truthy (url_video video) = false /\
  truthy (url_video_low video) = false.
Proof.
  unfold highest.
  destruct (truthy (url_video_hd video)), (truthy (url_video video)),
    (truthy (url_video_low video)); split; intros H;
    try discriminate; try tauto; intuition discriminate.
Qed.

Lemma highest_some video k : highest video = Some k -> truthy (get_url video k) = true.
Proof.
  unfold highest.
  destruct (truthy (url_video_hd video)) eqn:E1; [intros [= <-]; exact E1|].
  destruct (truthy (url_video video)) eqn:E2; [intros [= <-]; exact E2|].
  destruct (truthy (url_video_low video)) eqn:E3; [intros [= <-]; exact E3|].
  discriminate.
Qed.

Lemma preferred_tier q tier video :
  qualityMap (toLowerCase q) = Some (MKey tier) ->
  preferred q video = if truthy (get_url video tier) then Some tier else None.
Proof.
  intros H. unfold preferred. rewrite H. simpl get_mapval.
  destruct q as [|c r]; [discriminate H|]. reflexivity.
Qed.

Lemma preferred_some q k video :
  preferred q video = Some k -> truthy (get_url video k) = true.
Proof.
  unfold preferred.
  destruct (truthy (Some q)); [|discriminate].
  destruct (qualityMap (toLowerCase q)) as [[k'|]|]; simpl; try discriminate.
  destruct (truthy (get_url video k')) eqn:E; [|discriminate].
  intros [= <-]; exact E.
Qed.

(** A key other than the three tiers finds nothing usable in [qualityMap]. *)
Lemma preferred_invalid q video :
  toLowerCase q <> "hd" -> toLowerCase q <> "medium" -> toLowerCase q <> "low" ->
  preferred q video = None.
Proof.
  intros H1 H2 H3. unfold preferred, qualityMap.
  apply String.eqb_neq in H1, H2, H3. rewrite H1, H2, H3.
  destruct (truthy (Some q)); [|reflexivity].
  destruct (includes object_prototype_keys (toLowerCase q)); reflexivity.
Qed.

(** [selectQuality] computes [select]; its trace is one [console.log] line
    or nothing. *)
Lemma selectQuality_result q video :
  result (selectQuality q video) = Ret (select q video).
Proof.
  unfold selectQuality, select, highest.
  destruct (preferred q video); [reflexivity|].
  destruct (truthy (url_video_hd video)); [reflexivity|].
  destruct (truthy (url_video video)); [reflexivity|].
  destruct (truthy (url_video_low video)); reflexivity.
Qed.

Definition highest_line (k : option propkey) : list event :=
  match k with
  | Some Url_video_hd => [Log MSelectedHigh]
  | Some Url_video => [Log MSelectedMedium]
  | Some Url_video_low => [Log MSelectedLow]
  | None => []
  end.

Lemma selectQuality_no_preference q video :
  preferred q video = None ->
  selectQuality q video = (highest_line (highest video), Ret (highest video)).
Proof.
  intros H. unfold selectQuality, highest. rewrite H.
  destruct (truthy (url_video_hd video)); [reflexivity|].
  destruct (truthy (url_video video)); [reflexivity|].
  destruct (truthy (url_video_low video)); reflexivity.
Qed.

(** ** [downloadVideo] always returns to its caller *)

Lemma downloadVideo_returns w o url filename video :
  result (downloadVideo w o url filename video) = Ret tt.
Proof.
  unfold downloadVideo, result, resolve_path.
  destruct (truthy (opt_output o));
    [| destruct (negb (answer_filename w _ =? _)) ];
    simpl;
    (destruct (mpv_available w); simpl;
     [ destruct (answer_action w); simpl | ];
     try reflexivity;
     destruct (asset w url) as [[[] st]|e]; simpl; try reflexivity;
     destruct (stream w) as [[]|e]; reflexivity).
Qed.

Lemma selectQuality_eta q video :
  selectQuality q video = (trace (selectQuality q video), Ret (select q video)).
Proof. rewrite <- selectQuality_result. apply proc_eta. Qed.

Lemma downloadVideo_eta w o url filename video :
  downloadVideo w o url filename video =
  (trace (downloadVideo w o url filename video), Ret tt).
Proof. rewrite <- (downloadVideo_returns w o url filename video). apply proc_eta. Qed.

(** The events up to and including the details of the video found. *)
Definition lookup_prefix (i : string) (video : Entry) : list event :=
  [ Spinner (SStart ("Fetching video details for ID: " ++ i));
    FetchEntries [i];
    Spinner (SSucceed "Video details fetched");
    Log (MTitle (title video));
    Log (MChannel (channel video));
    Log (MDuration (duration video)) ].

(** Once the lookup has produced a video, [getAndDownloadVideo] selects a
    quality and hands the selected URL to [downloadVideo], whatever the
    selection gave. *)
Lemma getAndDownloadVideo_found w o i data r video rest :
  entries w [i] = Ok data ->
  truthy (en_err data) = false ->
  en_result data = Some r ->
  res_results r = Some (video :: rest) ->
  getAndDownloadVideo w o i =
  (lookup_prefix i video
     ++ trace (selectQuality (opt_quality o) video)
     ++ trace (downloadVideo w o
                 (selected_url video (select (opt_quality o) video)) "" video),
   Exit 0).
Proof.
  intros He Herr Hres Hvid.
  unfold getAndDownloadVideo, lift, show_details.
  rewrite He; simpl. rewrite Herr, Hres; simpl. rewrite Hvid; simpl.
  rewrite (selectQuality_eta (opt_quality o) video); simpl.
  rewrite downloadVideo_eta; simpl.
  rewrite !app_nil_r. reflexivity.
Qed.

(** ** Traces that end with the run of a callee *)

Definition ends_with (l s : list event) : Prop := exists pre, l = pre ++ s.

Lemma ends_with_refl s : ends_with s s.
Proof. exists []; reflexivity. Qed.

Lemma ends_with_nil_r s : ends_with (s ++ []) s.
Proof. exists []; now rewrite app_nil_r. Qed.

Lemma ends_with_cons x l s : ends_with l s -> ends_with (x :: l) s.
Proof. intros [pre ->]. exists (x :: pre); reflexivity. Qed.

Lemma ends_with_app l1 l2 s : ends_with l2 s -> ends_with (l1 ++ l2) s.
Proof. intros [pre ->]. exists (l1 ++ pre). now rewrite app_assoc. Qed.

Ltac ends_with_tac :=
  rewrite ?app_nil_r;
  repeat first
    [ apply ends_with_refl
    | apply ends_with_nil_r
    | apply ends_with_cons
    | apply ends_with_app ].

Lemma searchMovies_eta w q c l e results :
  result (searchMovies w q c l e) = Ret results ->
  searchMovies w q c l e = (trace (searchMovies w q c l e), Ret results).
Proof. intros <-. apply proc_eta. Qed.

(** In interactive mode too the selected URL goes to [downloadVideo]
    whatever the selection gave. *)
Lemma startInteractiveMode_selected w o data results :
  interactive_channels w = Ok data ->
  result (searchMovies w (answer_query w)
            (or_default (channel_value (opt_channel o)) None)
            (or_default (opt_limit o) None)
            (or_default (opt_exclude o) None)) = Ret results ->
  results <> [] ->
  let video := answer_video w results in
  ends_with (trace (startInteractiveMode w o))
    (trace (downloadVideo w o
              (selected_url video (select (opt_quality o) video)) "" video))
  /\ result (startInteractiveMode w o) = Exit 0.
Proof.
  intros Hd Hs Hne video. subst video.
  unfold startInteractiveMode, lift, show_details, emit_if, getVideoDetails.
  rewrite Hd; simpl.
  rewrite (searchMovies_eta _ _ _ _ _ _ Hs).
  destruct results as [|r0 rs]; [congruence|].
  simpl. set (video := answer_video w (r0 :: rs)).
  destruct (truthy (or_default (opt_exclude o) None));
    destruct (String.prefix "error:" (description w (id video))
              || (description w (id video) =? "document not found"));
    simpl;
    rewrite (selectQuality_eta (opt_quality o) video); simpl;
    rewrite (downloadVideo_eta w o _ "" video); simpl;
    split; try reflexivity; ends_with_tac.
Qed.

(** *** Sample data *)

Definition sample_entry (hd md lo : option string) : Entry :=
  mkEntry "id-1" "Tatort" "ARD" 5400 1700000000 hd md lo.

Definition no_urls : Entry := sample_entry None None None.
Definition only_hd : Entry := sample_entry (Some "https://cdn.example/hd.mp4") None None.

Definition found (video : Entry) : attempt entries_data :=
  Ok (mkEntries None (Some (mkResult (Some [video])))).

(** A world with a reachable backend: [chans] answers every channel
    request, [lookup] the entry request, [reply] the search; there is no
    preferences file and no [mpv]; [fetch] of a missing URL is rejected. *)
Definition sample_world (chans : attempt channels_data)
    (lookup : attempt entries_data) (reply : SearchQuery -> query_response) : World :=
  {| homedir := "/home/user";
     cwd := "/work";
     path_join := fun a b => (a ++ "/" ++ b)%string;
     config_file := None;
     ini_parse := fun _ => Ok empty_config;
     write_config := Ok tt;
     select_channels := chans;
     list_channels := chans;
     interactive_channels := chans;
     entries := fun _ => lookup;
     backend := reply;
     description := fun _ => "document not found";
     answer_channel := fun _ => None;
     answer_query := "Tatort";
     answer_video := fun l => hd no_urls l;
     answer_filename := fun d => d;
     mpv_available := false;
     answer_action := Download;
     player_exit := 0;
     asset := fun url =>
       match url with
       | Some _ => Ok (mkAsset true "OK")
       | None => Fails (TypeError "Only absolute URLs are supported")
       end;
     stream := Ok tt |}.

Definition no_args : argv :=
  mkArgv None false None None None false None None None None false.

Definition default_options : options := parse_options empty_config no_args.

Definition two_channels : attempt channels_data :=
  Ok (mkChannels None (Some ["ZDF"; "ARD"])).

Definition no_reply : SearchQuery -> query_response := fun _ => mkResponse None [].

(** *** C1 *)

(** C1, as stated, fails: for an entry without any URL the selection
    yields nothing, yet the download action is not aborted.
    [getAndDownloadVideo] still calls [downloadVideo], which prompts for a
    file name, announces the download and fetches the missing URL. *)
Lemma none_available_not_terminal :
  select "hd" no_urls = None /\
  getAndDownloadVideo (sample_world two_channels (found no_urls) no_reply)
    default_options "id-1" =
  ([ Spinner (SStart "Fetching video details for ID: id-1");
     FetchEntries ["id-1"];
     Spinner (SSucceed "Video details fetched");
     Log (MTitle "Tatort");
     Log (MChannel "ARD");
     Log (MDuration 5400);
     PromptFilename "Tatort-ARD.mp4";
     Log (MDownloadingTo "/work/Tatort-ARD.mp4");
     Spinner (SStart "Starting download...");
     SpawnWhich;
     FetchUrl None;
     Spinner (SFail "Download failed");
     Err (MException (TypeError "Only absolute URLs are supported")) ],
   Exit 0).
Proof. split; reflexivity. Qed.

(** C1 (amended): when the preferred tier's URL is non-empty the selection
    is that tier; otherwise it is the first non-empty URL in the order
    high, medium, low; it is empty exactly when all three URLs are empty.
    Both callers pass the selected URL, present or not, on to
    [downloadVideo]: its run ends the trace of the action. *)
Theorem quality_selection (q : string) (tier : propkey) (video : Entry) :
  qualityMap (toLowerCase q) = Some (MKey tier) ->
  (truthy (get_url video tier) = true -> select q video = Some tier) /\
  (truthy (get_url video tier) = false -> select q video = first_available video) /\
  (select q video = None <-> forall k, truthy (get_url video k) = false) /\
  (forall w o i data r rest,
      opt_quality o = q ->
      entries w [i] = Ok data ->
      truthy (en_err data) = false ->
      en_result data = Some r ->
      res_results r = Some (video :: rest) ->
      ends_with (trace (getAndDownloadVideo w o i))
        (trace (downloadVideo w o (selected_url video (select q video)) "" video))) /\
  (forall w o data results,
      opt_quality o = q ->
      interactive_channels w = Ok data ->
      result (searchMovies w (answer_query w)
                (or_default (channel_value (opt_channel o)) None)
                (or_default (opt_limit o) None)
                (or_default (opt_exclude o) None)) = Ret results ->
      results <> [] ->
      answer_video w results = video ->
      ends_with (trace (startInteractiveMode w o))
        (trace (downloadVideo w o (selected_url video (select q video)) "" video))).
Proof.
  intros Hq.
  pose proof (preferred_tier q tier video Hq) as Hp.
  repeat split.
  - intros Ht. unfold select. now rewrite Hp, Ht.
  - intros Ht. unfold select. rewrite Hp, Ht. apply highest_first_available.
  - intros Hs k. unfold select in Hs.
    destruct (preferred q video) eqn:E; [discriminate|].
    apply highest_none in Hs. destruct Hs as (H1 & H2 & H3).
    destruct k; assumption.
  - intros Hall. unfold select. rewrite Hp, (Hall tier).
    apply highest_none.
    repeat split; [apply (Hall Url_video_hd) | apply (Hall Url_video)
                  | apply (Hall Url_video_low)].
  - intros w o i data r rest Ho He Herr Hres Hvid. subst q.
    rewrite (getAndDownloadVideo_found w o i data r video rest He Herr Hres Hvid).
    unfold trace at 1; simpl. ends_with_tac.
  - intros w o data results Ho Hd Hs Hne Hv. subst q.
    destruct (startInteractiveMode_selected w o data results Hd Hs Hne) as [H _].
    simpl in H. rewrite Hv in H. exact H.
Qed.

Lemma quality_selection_witness :
  qualityMap (toLowerCase "Medium") = Some (MKey Url_video) /\
  select "Medium" only_hd = first_available only_hd.
Proof.
  split; [reflexivity|].
  apply (proj1 (proj2 (quality_selection "Medium" Url_video only_hd eq_refl))).
  reflexivity.
Defined.

(** *** C10 *)

(** C10: a [--quality] value that is, lower-cased, none of [hd], [medium],
    [low] is ignored: the selection block only logs the tier it picks (no
    exception, no prompt), behaves as with an empty preference, and picks
    the first available tier in the order high, medium, low. *)
Theorem invalid_quality_ignored (q : string) (video : Entry) :
  toLowerCase q <> "hd" -> toLowerCase q <> "medium" -> toLowerCase q <> "low" ->
  selectQuality q video = (highest_line (first_available video), Ret (first_available video))
  /\ selectQuality q video = selectQuality "" video
  /\ select q video = first_available video.
Proof.
  intros H1 H2 H3.
  pose proof (preferred_invalid q video H1 H2 H3) as Hp.
  rewrite <- highest_first_available.
  repeat split.
  - now apply selectQuality_no_preference.
  - rewrite (selectQuality_no_preference q video Hp).
    symmetry. now apply selectQuality_no_preference.
  - unfold select. now rewrite Hp.
Qed.

Lemma invalid_quality_ignored_witness :
  selectQuality "4K" only_hd = ([Log MSelectedHigh], Ret (Some Url_video_hd)).
Proof.
  apply (proj1 (invalid_quality_ignored "4K" only_hd
                  ltac:(discriminate) ltac:(discriminate) ltac:(discriminate))).
Defined.

(** ** Exclusion of channels *)

(** The specification's [R \ {e : e.channel ∈ E}]: the entries of [R], in
    their order, whose channel is not a member of [E]. *)
Definition minus_channels (E : list string) (R : list Entry) : list Entry :=
  filter (fun e => if in_dec string_dec (channel e) E then false else true) R.

(** The counts announced by "Excluded n results from channels: ...". *)
Definition reported_excluded (tr : list event) : list nat :=
  flat_map (fun e => match e with Log (MExcluded n _) => [n] | _ => [] end) tr.

Lemma includes_In (l : list string) (x : string) : includes l x = true <-> In x l.
Proof.
  unfold includes. rewrite existsb_exists. split.
  - intros (y & Hy & Heq). apply String.eqb_eq in Heq. now subst.
  - intros H. exists x. split; [assumption | apply String.eqb_refl].
Qed.

Lemma drop_excluded_minus E R : drop_excluded E R = minus_channels E R.
Proof.
  unfold drop_excluded, minus_channels. apply filter_ext. intros e.
  destruct (in_dec string_dec (channel e) E) as [Hin | Hout].
  - apply includes_In in Hin. now rewrite Hin.
  - destruct (includes E (channel e)) eqn:Hi; [|reflexivity].
    apply includes_In in Hi. contradiction.
Qed.

Lemma minus_channels_nil R : minus_channels [] R = R.
Proof.
  unfold minus_channels. induction R as [|e R IH]; [reflexivity|].
  cbn [filter]. destruct (in_dec string_dec (channel e) []) as [[]|_].
  now rewrite IH.
Qed.

Lemma minus_channels_length E R : length (minus_channels E R) <= length R.
Proof.
  unfold minus_channels. induction R as [|e R IH]; [simpl; lia|].
  cbn [filter]. destruct (in_dec string_dec (channel e) E); simpl; lia.
Qed.

Lemma minus_channels_In E R e :
  In e (minus_channels E R) <-> In e R /\ ~ In (channel e) E.
Proof.
  unfold minus_channels. rewrite filter_In.
  destruct (in_dec string_dec (channel e) E); intuition discriminate.
Qed.

(** The reply handler on a reply without [err]. *)
Lemma on_response_ok E R err :
  truthy err = false ->
  on_response E (mkResponse err R) =
  (Spinner SStop ::
     (if (0 <? length R - length (minus_channels E R))%nat
      then [Log (MExcluded (length R - length (minus_channels E R)) E)]
      else []),
   Ret (minus_channels E R)).
Proof.
  intros Herr. unfold on_response. simpl. rewrite Herr.
  destruct E as [|c E']; simpl Nat.ltb.
  - rewrite minus_channels_nil, Nat.sub_diag. reflexivity.
  - cbv beta iota. rewrite drop_excluded_minus.
    destruct (0 <? length R - length (minus_channels (c :: E') R))%nat; reflexivity.
Qed.

(** C2: whatever exclusion list [E] and raw result sequence [R], the reply
    handler of the search yields exactly the entries of [R] whose channel
    is not in [E], in their order; the count it announces is
    [|R| - |filtered|] (nothing is announced when that is zero); and
    [searchMovies] does so for the list it derives from [--exclude]. *)
Theorem exclusion_postfilter (E : list string) (R : list Entry) (err : option string) :
  truthy err = false ->
  let filtered := minus_channels E R in
  let excludedCount := length R - length filtered in
  result (on_response E (mkResponse err R)) = Ret filtered /\
  reported_excluded (trace (on_response E (mkResponse err R))) =
    (if (0 <? excludedCount)%nat then [excludedCount] else []) /\
  length filtered + excludedCount = length R /\
  (forall e, In e filtered <-> In e R /\ ~ In (channel e) E) /\
  (forall w query channel limit exclude,
      excludedChannelsList exclude = E ->
      backend w (build_query query channel limit) = mkResponse err R ->
      result (searchMovies w query channel limit exclude) = Ret filtered /\
      reported_excluded (trace (searchMovies w query channel limit exclude)) =
        (if (0 <? excludedCount)%nat then [excludedCount] else [])).
Proof.
  intros Herr filtered excludedCount.
  pose proof (on_response_ok E R err Herr) as Hon.
  fold filtered in Hon. fold excludedCount in Hon.
  assert (Hrep : reported_excluded (trace (on_response E (mkResponse err R))) =
                 (if (0 <? excludedCount)%nat then [excludedCount] else [])).
  { rewrite Hon. unfold trace; simpl.
    destruct (0 <? excludedCount)%nat; reflexivity. }
  split; [|split; [|split; [|split]]].
  - now rewrite Hon.
  - exact Hrep.
  - pose proof (minus_channels_length E R). subst excludedCount filtered. lia.
  - intros e. apply minus_channels_In.
  - intros w query channel limit exclude HE Hreply.
    unfold searchMovies. rewrite HE, Hreply, Hon. split; [reflexivity|].
    unfold trace; simpl. destruct (0 <? excludedCount)%nat; reflexivity.
Qed.

Definition zdf_entry : Entry :=
  mkEntry "id-2" "heute journal" "ZDF" 1800 1700000100
    (Some "https://cdn.example/zdf.mp4") None None.

Lemma exclusion_postfilter_witness :
  result (on_response ["ZDF"; "NDR"] (mkResponse None [only_hd; zdf_entry; only_hd]))
    = Ret [only_hd; only_hd] /\
  reported_excluded
    (trace (on_response ["ZDF"; "NDR"] (mkResponse None [only_hd; zdf_entry; only_hd])))
    = [1].
Proof.
  pose proof (exclusion_postfilter ["ZDF"; "NDR"] [only_hd; zdf_entry; only_hd]
                None eq_refl) as H.
  split; [exact (proj1 H) | exact (proj1 (proj2 H))].
Defined.

(** ** How the actions end *)

Lemma searchMovies_never_exits w q c l e code :
  result (searchMovies w q c l e) <> Exit code.
Proof.
  unfold searchMovies, on_response.
  destruct (truthy (r_err (backend w (build_query q c l)))); simpl; [discriminate|].
  destruct (0 <? length (excludedChannelsList e))%nat; simpl; [|discriminate].
  match goal with |- context [if ?b then _ else _] => destruct b end;
    simpl; discriminate.
Qed.

Lemma listChannels_exits_zero w : result (listChannels w) = Exit 0.
Proof.
  unfold listChannels, lift.
  destruct (list_channels w) as [data | e]; simpl; [|reflexivity].
  destruct (truthy (ch_error data)); simpl; [reflexivity|].
  destruct (ch_channels data); reflexivity.
Qed.

Lemma startInteractiveMode_exits_zero w o : result (startInteractiveMode w o) = Exit 0.
Proof.
  unfold startInteractiveMode, lift, show_details, emit_if, getVideoDetails.
  destruct (interactive_channels w) as [data | e]; simpl; [|reflexivity].
  destruct (searchMovies w (answer_query w)
              (or_default (channel_value (opt_channel o)) None)
              (or_default (opt_limit o) None)
              (or_default (opt_exclude o) None)) as [tr [results | e | code]] eqn:Hs.
  - destruct results as [|r0 rs].
    + destruct (truthy (or_default (opt_exclude o) None)); reflexivity.
    + simpl. set (video := answer_video w (r0 :: rs)).
      destruct (truthy (or_default (opt_exclude o) None));
        destruct (String.prefix "error:" (description w (id video))
                  || (description w (id video) =? "document not found"));
        simpl;
        rewrite (selectQuality_eta (opt_quality o) video); simpl;
        rewrite (downloadVideo_eta w o _ "" video); reflexivity.
  - destruct (truthy (or_default (opt_exclude o) None)); reflexivity.
  - exfalso. apply (searchMovies_never_exits w (answer_query w)
              (or_default (channel_value (opt_channel o)) None)
              (or_default (opt_limit o) None)
              (or_default (opt_exclude o) None) code).
    rewrite Hs. reflexivity.
Qed.

(** The lookup of [getAndDownloadVideo] is refused when the reply carries
    [err], or when its [result] object has no or an empty [results] list. *)
Definition lookup_refused (a : attempt entries_data) : bool :=
  match a with
  | Ok data =>
      truthy (en_err data) ||
      match en_result data with
      | Some r => match res_results r with Some (_ :: _) => false | _ => true end
      | None => false
      end
  | Fails _ => false
  end.

Lemma getAndDownloadVideo_exit w o i :
  result (getAndDownloadVideo w o i) =
  Exit (if lookup_refused (entries w [i]) then 1 else 0).
Proof.
  destruct (entries w [i]) as [data | e] eqn:He.
  - destruct (truthy (en_err data)) eqn:Herr.
    + unfold getAndDownloadVideo, lift. rewrite He; simpl. rewrite Herr. reflexivity.
    + destruct (en_result data) as [r|] eqn:Hres.
      * destruct (res_results r) as [[|video rest]|] eqn:Hvid.
        -- unfold getAndDownloadVideo, lift. rewrite He; simpl.
           rewrite Herr, Hres; simpl. rewrite Hvid. reflexivity.
        -- rewrite (getAndDownloadVideo_found w o i data r video rest He Herr Hres Hvid).
           simpl. rewrite Herr, Hres, Hvid. reflexivity.
        -- unfold getAndDownloadVideo, lift. rewrite He; simpl.
           rewrite Herr, Hres; simpl. rewrite Hvid. reflexivity.
      * unfold getAndDownloadVideo, lift. rewrite He; simpl.
        rewrite Herr, Hres. reflexivity.
  - unfold getAndDownloadVideo, lift. rewrite He. reflexivity.
Qed.

(** ** From [main] to the actions *)

Lemma loadConfig_returns w : exists c, result (loadConfig w) = Ret c.
Proof.
  unfold loadConfig, createDefaultConfig.
  destruct (config_file w) as [[content | e]|]; simpl.
  - destruct (ini_parse w content) as [c | e]; simpl; eauto.
  - eauto.
  - destruct (write_config w); simpl; eauto.
Qed.

(** The configuration [loadConfig] hands to the option parser. *)
Definition loaded (w : World) : config :=
  match result (loadConfig w) with
  | Ret c => c
  | _ => empty_config
  end.

Lemma loadConfig_eta w : loadConfig w = (trace (loadConfig w), Ret (loaded w)).
Proof.
  unfold loaded. destruct (loadConfig_returns w) as [c Hc]. rewrite Hc.
  rewrite <- Hc. apply proc_eta.
Qed.

Lemma resolve_channel_returns w o :
  exists c, result (resolve_channel w o) = Ret (set_channel o c).
Proof.
  unfold resolve_channel, lift.
  destruct (opt_channel o) eqn:Hc;
    try (exists (opt_channel o); rewrite Hc; destruct o; simpl in *; subst; reflexivity).
  destruct (select_channels w) as [data | e]; simpl; [|eauto].
  destruct (0 <? length (or_else (ch_channels data) []))%nat; simpl; eauto.
Qed.

Lemma dispatch_set_channel o c : dispatch (set_channel o c) = dispatch o.
Proof. reflexivity. Qed.

Lemma at_boundary_bind_ret (tr : list event) (p : proc unit) :
  at_boundary (bind (tr, Ret tt) (fun _ => p)) =
  (tr ++ fst (at_boundary p), snd (at_boundary p)).
Proof.
  destruct p as [tr' [[] | e | c]]; simpl; try reflexivity.
  now rewrite app_assoc.
Qed.

(** After a successful connection the process is the connect handler run
    on the parsed options. *)
Lemma main_connect w a :
  main w a Connect =
  (trace (loadConfig w)
     ++ fst (at_boundary (on_connect w (parse_options (loaded w) a))),
   snd (at_boundary (on_connect w (parse_options (loaded w) a)))).
Proof.
  unfold main. rewrite loadConfig_eta at 1.
  rewrite bind_ret. cbv beta zeta.
  destruct (on_connect w (parse_options (loaded w) a)) as [tr [[] | e | c]];
    simpl; try reflexivity.
  now rewrite app_assoc.
Qed.

Lemma main_socket_error w a error :
  main w a (SocketError error) =
  (trace (loadConfig w) ++ [Err (MConnectionError error)], Exited 1).
Proof.
  unfold main. rewrite loadConfig_eta at 1. reflexivity.
Qed.

(** The connect handler ends the way the dispatched action ends. *)
Lemma on_connect_status w o :
  exists c,
    snd (at_boundary (on_connect w o)) =
    snd (at_boundary (run_action w (set_channel o c) (dispatch o))).
Proof.
  destruct (resolve_channel_returns w o) as [c Hc]. exists c.
  unfold on_connect. simpl.
  destruct (resolve_channel w o) as [tr r]. simpl in Hc. subst r. simpl.
  rewrite dispatch_set_channel.
  destruct (run_action w (set_channel o c) (dispatch o)) as [tr' [[] | e | code]];
    reflexivity.
Qed.

(** *** C3 *)


Definition unreachable : attempt channels_data :=
  Fails (FetchError "connect ECONNREFUSED").



Definition search_args : argv :=
  mkArgv None false (Some "Tatort") None None false None None None None false.

Definition rejecting : SearchQuery -> query_response :=
  fun _ => mkResponse (Some "query too long") [].


(** The search action calls [searchMovies] and nothing after it: when the
    reply carries no [err] the handler returns without [process.exit], and
    the process stays on its open socket. *)
Lemma search_action_keeps_running w o :
  truthy (r_err (backend w (build_query (or_else (opt_query o) "")
                              (channel_value (opt_channel o)) (opt_limit o)))) = false ->
  snd (at_boundary (run_action w o Search)) = Running.
Proof.
  intros Herr. unfold run_action, searchMovies, emit_if.
  destruct (backend w _) as [err R]. simpl in Herr.
  rewrite (on_response_ok _ R err Herr).
  destruct (truthy (channel_value (opt_channel o)));
    destruct (truthy (opt_exclude o)); reflexivity.
Qed.

(** *** C4 *)




(** A reply without [err] and without [result] object takes another path:
    the property access throws, the action reports "Failed to process
    video" and the exit code is 0. *)
Lemma lookup_without_result w o i data :
  entries w [i] = Ok data ->
  truthy (en_err data) = false ->
  en_result data = None ->
  getAndDownloadVideo w o i =
    ([ Spinner (SStart ("Fetching video details for ID: " ++ i));
       FetchEntries [i];
       Spinner (SFail "Failed to process video");
       Err (MException
              (TypeError "Cannot read properties of undefined (reading 'results')")) ],
     Exit 0).
Proof.
  intros He Herr Hres. unfold getAndDownloadVideo, lift. rewrite He; simpl.
  rewrite Herr, Hres. reflexivity.
Qed.

(** *** C5 *)

Definition only_zdf : SearchQuery -> query_response :=
  fun _ => mkResponse None [zdf_entry].

(** C5, as stated, fails: the client sends the channel as a query clause
    and returns what the backend replies; an entry of another channel in
    the reply is returned as it is. *)
Lemma channel_filter_not_enforced :
  result (searchMovies (sample_world two_channels (found only_hd) only_zdf)
            "heute" (Some "ARD") None None) = Ret [zdf_entry]
  /\ channel zdf_entry <> "ARD".
Proof. split; [reflexivity | discriminate]. Qed.

(** C5 (amended): for a non-empty channel filter the query sent to the
    backend has, after the title/topic clause, one clause matching the
    field [channel] against that name; when the reply carries no [err] the
    search returns the replied entries minus the excluded channels, so
    every returned entry is one the backend replied to that query. *)
Theorem channel_filter_sent (w : World) (query ch : string)
    (limit exclude : option string) :
  truthy (Some ch) = true ->
  let q := build_query query (Some ch) limit in
  queries q = [mkClause ["title"; "topic"] query; mkClause ["channel"] ch] /\
  In (EmitQuery q) (trace (searchMovies w query (Some ch) limit exclude)) /\
  (truthy (r_err (backend w q)) = false ->
   result (searchMovies w query (Some ch) limit exclude) =
     Ret (minus_channels (excludedChannelsList exclude) (r_results (backend w q))) /\
   forall results e,
     result (searchMovies w query (Some ch) limit exclude) = Ret results ->
     In e results -> In e (r_results (backend w q))).
Proof.
  intros Hch q.
  assert (Hq : queries q = [mkClause ["title"; "topic"] query; mkClause ["channel"] ch]).
  { subst q. unfold build_query. cbn [queries]. now rewrite Hch. }
  split; [exact Hq|]. split.
  - unfold searchMovies. fold q.
    destruct (on_response (excludedChannelsList exclude) (backend w q)) as [tr o].
    simpl. right. left. reflexivity.
  - intros Herr.
    assert (Hr : result (searchMovies w query (Some ch) limit exclude) =
                 Ret (minus_channels (excludedChannelsList exclude)
                        (r_results (backend w q)))).
    { unfold searchMovies. fold q.
      destruct (backend w q) as [err R] eqn:Hb. simpl in Herr.
      rewrite (on_response_ok _ R err Herr). reflexivity. }
    split; [exact Hr|].
    intros results e Hres Hin. rewrite Hr in Hres. injection Hres as <-.
    apply minus_channels_In in Hin. tauto.
Qed.

Lemma channel_filter_sent_witness :
  queries (build_query "Tatort" (Some "ARD") None) =
  [mkClause ["title"; "topic"] "Tatort"; mkClause ["channel"] "ARD"].
Proof.
  apply (proj1 (channel_filter_sent (sample_world two_channels (found only_hd) no_reply)
                  "Tatort" "ARD" None None eq_refl)).
Defined.

(** *** C6 *)

Definition bare_channel_args : argv :=
  mkArgv None false (Some "Tatort") None None false None (Some None) None None false.

(** C6, as stated, fails: with [-q Tatort -c] and a channel fetch that
    fails, the connect handler reports the failure, clears the channel and
    goes on to search in all channels (the query has no channel clause). *)
Lemma channel_failure_falls_back :
  on_connect (sample_world unreachable (found only_hd) no_reply)
    (parse_options empty_config bare_channel_args) =
  ([ Log (MConnected "https://mediathekviewweb.de");
     FetchChannels;
     Err (MFailedFetchChannels (FetchError "connect ECONNREFUSED"));
     Log MSearchingAll;
     Spinner (SStart "Searching...");
     EmitQuery (mkQuery [mkClause ["title"; "topic"] "Tatort"]
                  "timestamp" "desc" false 0 None);
     Spinner SStop ],
   Ret tt).
Proof. reflexivity. Qed.

(** C6 (amended): a failed channel fetch is always reported.  In
    [listChannels] and in [startInteractiveMode] the action ends there,
    with exit code 0 and without listing or searching; [listChannels] also
    ends so on a reply without channel list.  The channel selection of the
    connect handler instead falls back to no channel filter, on a failed
    fetch (after the report) and on a reply with no or an empty channel
    list (after a notice), and the dispatched action then runs. *)
Theorem channel_fetch_failure (w : World) (o : options) :
  (forall e, opt_channel o = ChannelFlag -> select_channels w = Fails e ->
     resolve_channel w o =
       ([FetchChannels; Err (MFailedFetchChannels e)], Ret (set_channel o ChannelNull))
     /\ on_connect w o =
        bind ([Log (MConnected (opt_server o)); FetchChannels;
               Err (MFailedFetchChannels e)], Ret tt)
          (fun _ => run_action w (set_channel o ChannelNull) (dispatch o))) /\
  (forall data, opt_channel o = ChannelFlag -> select_channels w = Ok data ->
     ch_channels data = None \/ ch_channels data = Some [] ->
     resolve_channel w o =
       ([FetchChannels; Log MNoChannelsAvailable], Ret (set_channel o ChannelNull))) /\
  (forall e, list_channels w = Fails e ->
     listChannels w =
       ([ Spinner (SStart "Loading channels...");
          FetchChannels;
          Spinner (SFail "Failed to load channels");
          Err (MException e) ],
        Exit 0)) /\
  (forall data, list_channels w = Ok data ->
     truthy (ch_error data) = false -> ch_channels data = None ->
     listChannels w =
       ([ Spinner (SStart "Loading channels...");
          FetchChannels;
          Spinner (SSucceed "Channels loaded");
          Log MAvailableChannels;
          Spinner (SFail "Failed to load channels");
          Err (MException
                 (TypeError "Cannot read properties of undefined (reading 'sort')")) ],
        Exit 0)) /\
  (forall e, interactive_channels w = Fails e ->
     startInteractiveMode w o = ([FetchChannels; Err (MInteractiveFailed e)], Exit 0)).
Proof.
  split; [|split; [|split; [|split]]].
  - intros e Hc Hf.
    assert (Hr : resolve_channel w o =
                 ([FetchChannels; Err (MFailedFetchChannels e)],
                  Ret (set_channel o ChannelNull))).
    { unfold resolve_channel, lift. rewrite Hc, Hf. reflexivity. }
    split; [exact Hr|].
    unfold on_connect. rewrite Hr. simpl. rewrite dispatch_set_channel.
    destruct (run_action w (set_channel o ChannelNull) (dispatch o)); reflexivity.
  - intros data Hc Hf Hnone. unfold resolve_channel, lift. rewrite Hc, Hf. simpl.
    destruct Hnone as [-> | ->]; reflexivity.
  - intros e Hf. unfold listChannels, lift. rewrite Hf. reflexivity.
  - intros data Hf Herr Hnone. unfold listChannels, lift. rewrite Hf. simpl.
    rewrite Herr, Hnone. reflexivity.
  - intros e Hf. unfold startInteractiveMode, lift. rewrite Hf. reflexivity.
Qed.

Lemma channel_fetch_failure_witness :
  listChannels (sample_world unreachable (found only_hd) no_reply) =
  ([ Spinner (SStart "Loading channels...");
     FetchChannels;
     Spinner (SFail "Failed to load channels");
     Err (MException (FetchError "connect ECONNREFUSED")) ],
   Exit 0).
Proof.
  apply (proj1 (proj2 (proj2
           (channel_fetch_failure (sample_world unreachable (found only_hd) no_reply)
              default_options)))).
  reflexivity.
Defined.

(** *** C8 *)

(** The preferences file is there but reading or parsing it throws. *)
Definition unparsable (w : World) : bool :=
  match config_file w with
  | Some (Ok content) =>
      match ini_parse w content with Fails _ => true | Ok _ => false end
  | Some (Fails _) => true
  | None => false
  end.

(** The defaults declared with the options: the public server and [hd]. *)
Definition builtin_defaults : options :=
  {| opt_server := "https://mediathekviewweb.de";
     opt_channels := false;
     opt_query := None;
     opt_download := None;
     opt_output := None;
     opt_interactive := false;
     opt_limit := None;
     opt_channel := ChannelUnset;
     opt_exclude := None;
     opt_quality := "hd";
     opt_debug := false |}.

Definition handler (w : World) (o : options) (s : socket_event) : proc unit :=
  match s with
  | Connect => on_connect w o
  | SocketError error => on_error error
  end.

(** C8: when the preferences file exists and cannot be read or parsed,
    [loadConfig] prints the warning and returns the empty configuration;
    it neither throws nor exits.  The options then hold the built-in
    defaults and the program goes on with the socket handlers. *)
Theorem config_unreadable_falls_back (w : World) :
  unparsable w = true ->
  loadConfig w = ([Err MWarnParseConfig], Ret empty_config) /\
  parse_options empty_config no_args = builtin_defaults /\
  (forall a s,
      main w a s =
      (Err MWarnParseConfig
         :: fst (at_boundary (handler w (parse_options empty_config a) s)),
       snd (at_boundary (handler w (parse_options empty_config a) s)))).
Proof.
  intros Hu.
  assert (Hl : loadConfig w = ([Err MWarnParseConfig], Ret empty_config)).
  { unfold unparsable in Hu. unfold loadConfig.
    destruct (config_file w) as [[content | e]|]; [| reflexivity | discriminate].
    simpl. destruct (ini_parse w content); [discriminate | reflexivity]. }
  split; [exact Hl|]. split; [reflexivity|].
  intros a s. unfold main. rewrite Hl. rewrite bind_ret. cbv beta zeta.
  fold (handler w (parse_options empty_config a) s).
  destruct (handler w (parse_options empty_config a) s) as [tr [[] | e | c]];
    reflexivity.
Qed.

Definition broken_file_world : World :=
  {| homedir := "/home/user";
     cwd := "/work";
     path_join := fun a b => (a ++ "/" ++ b)%string;
     config_file := Some (Ok "[[[");
     ini_parse := fun _ => Fails (Error "unexpected token");
     write_config := Ok tt;
     select_channels := two_channels;
     list_channels := two_channels;
     interactive_channels := two_channels;
     entries := fun _ => found only_hd;
     backend := no_reply;
     description := fun _ => "document not found";
     answer_channel := fun _ => None;
     answer_query := "Tatort";
     answer_video := fun l => hd no_urls l;
     answer_filename := fun d => d;
     mpv_available := false;
     answer_action := Download;
     player_exit := 0;
     asset := fun _ => Ok (mkAsset true "OK");
     stream := Ok tt |}.

Lemma config_unreadable_witness :
  loadConfig broken_file_world = ([Err MWarnParseConfig], Ret empty_config).
Proof.
  apply (proj1 (config_unreadable_falls_back broken_file_world eq_refl)).
Defined.

(** *** C9 *)








(** ** Tilde expansion *)

(** The test [pathWithTilde.startsWith('~/') || pathWithTilde === '~']. *)
Definition has_tilde (p : string) : bool := String.prefix "~/" p || (p =? "~").

(** A home directory whose first character is neither a tilde nor a dollar
    sign; every absolute path is one. *)
Definition plain_home (h : string) : bool :=
  match h with
  | EmptyString => true
  | String c _ => negb (Ascii.eqb c "~") && negb (Ascii.eqb c "$")
  end.

Lemma prefix_cons a s1 b s2 :
  String.prefix (String a s1) (String b s2) =
  if Ascii.eqb a b then String.prefix s1 s2 else false.
Proof.
  change (String.prefix (String a s1) (String b s2))
    with (match ascii_dec a b with
          | left _ => String.prefix s1 s2
          | right _ => false
          end).
  destruct (ascii_dec a b) as [-> | Hab].
  - now rewrite Ascii.eqb_refl.
  - apply Ascii.eqb_neq in Hab. now rewrite Hab.
Qed.

Lemma eqb_cons a s1 b s2 :
  (String a s1 =? String b s2) = if Ascii.eqb a b then s1 =? s2 else false.
Proof. reflexivity. Qed.

Lemma has_tilde_first c r : c <> "~"%char -> has_tilde (String c r) = false.
Proof.
  intros Hc. unfold has_tilde. rewrite prefix_cons, eqb_cons.
  apply Ascii.eqb_neq in Hc. rewrite Hc.
  rewrite Ascii.eqb_sym, Hc. reflexivity.
Qed.

Lemma has_tilde_inv p :
  has_tilde p = true ->
  exists rest, p = String "~" rest /\
               (rest = EmptyString \/ exists r, rest = String "/" r).
Proof.
  destruct p as [|c rest]; [discriminate|].
  destruct (ascii_dec c "~") as [-> | Hc].
  - intros H. exists rest. split; [reflexivity|].
    destruct rest as [|d r]; [now left|]. right.
    unfold has_tilde in H. rewrite prefix_cons, eqb_cons in H.
    rewrite Ascii.eqb_refl in H. rewrite prefix_cons in H.
    destruct (Ascii.eqb "/" d) eqn:Hd.
    + apply Ascii.eqb_eq in Hd. subst d. eauto.
    + discriminate H.
  - intros H. rewrite has_tilde_first in H by assumption. discriminate.
Qed.

Lemma getSubstitution_plain m b a c t :
  c <> "$"%char ->
  getSubstitution m b a (String c t) = String c (getSubstitution m b a t).
Proof.
  intros Hc. cbn [getSubstitution]. apply Ascii.eqb_neq in Hc. now rewrite Hc.
Qed.

(** An expanded path no longer asks for expansion. *)
Lemma expanded_has_no_tilde h p :
  plain_home h = true -> has_tilde p = true ->
  has_tilde (expandTildePath h p) = false.
Proof.
  intros Hh Hp. unfold expandTildePath. fold (has_tilde p). rewrite Hp.
  destruct (has_tilde_inv p Hp) as (rest & -> & Hrest).
  assert (Hr : has_tilde rest = false).
  { destruct Hrest as [-> | [r ->]]; [reflexivity|].
    apply has_tilde_first. discriminate. }
  assert (Hexp : replace_leading_tilde (String "~" rest) h =
                 (getSubstitution "~" "" rest h ++ rest)%string).
  { unfold replace_leading_tilde. rewrite Ascii.eqb_refl.
    destruct Hrest as [-> | [r ->]]; reflexivity. }
  rewrite Hexp.
  destruct h as [|c t]; [exact Hr|].
  simpl in Hh. apply andb_prop in Hh. destruct Hh as [H1 H2].
  apply negb_true_iff in H1, H2. apply Ascii.eqb_neq in H1, H2.
  rewrite getSubstitution_plain by assumption.
  cbn [append]. apply has_tilde_first. assumption.
Qed.

(** *** C7 *)

(** C7: with a home directory that does not itself begin with a tilde or
    a dollar sign (any absolute path), expanding twice is expanding once,
    and an absolute path is returned unchanged. *)
Theorem expandTildePath_idempotent (home p : string) :
  plain_home home = true ->
  expandTildePath home (expandTildePath home p) = expandTildePath home p /\
  (isAbsolute p = true -> expandTildePath home p = p).
Proof.
  intros Hh. split.
  - destruct (has_tilde p) eqn:Hp.
    + pose proof (expanded_has_no_tilde home p Hh Hp) as Hn.
      unfold expandTildePath at 1. fold (has_tilde (expandTildePath home p)).
      now rewrite Hn.
    + assert (He : expandTildePath home p = p).
      { unfold expandTildePath. fold (has_tilde p). now rewrite Hp. }
      now rewrite !He.
  - intros Ha. unfold expandTildePath. fold (has_tilde p).
    destruct p as [|c r]; [discriminate|].
    unfold isAbsolute in Ha. rewrite prefix_cons in Ha.
    destruct (Ascii.eqb "/" c) eqn:Hc; [|discriminate].
    apply Ascii.eqb_eq in Hc. subst c.
    rewrite has_tilde_first by discriminate. reflexivity.
Qed.

Lemma expandTildePath_idempotent_witness :
  expandTildePath "/home/user" (expandTildePath "/home/user" "~/Videos/mediathek.mp4")
  = expandTildePath "/home/user" "~/Videos/mediathek.mp4".
Proof.
  apply (proj1 (expandTildePath_idempotent "/home/user" "~/Videos/mediathek.mp4" eq_refl)).
Defined.

(** The assumption on the home directory cannot be dropped: were it
    ["~/x"], a second expansion would expand again. *)
Lemma tilde_home_expands_again :
  expandTildePath "~/x" "~/a" = "~/x/a" /\
  expandTildePath "~/x" (expandTildePath "~/x" "~/a") = "~/x/x/a".
Proof. split; reflexivity. Qed.

(** * Further properties of the client *)

(** ** Quality selection never hands out an empty URL *)

(** X1: whatever the preference, a selected quality names a non-empty URL
    of the entry; the URL given to [downloadVideo] is non-empty exactly
    when the entry has some non-empty URL; and the block prints a
    "Selected quality" line exactly when it selected something. *)
Theorem selection_sound (q : string) (video : Entry) :
  (forall k, select q video = Some k -> truthy (get_url video k) = true) /\
  (truthy (selected_url video (select q video)) = true
   <-> exists k, truthy (get_url video k) = true) /\
  (trace (selectQuality q video) = [] <-> select q video = None).
Proof.
  assert (Hs : forall k, select q video = Some k -> truthy (get_url video k) = true).
  { intros k. unfold select.
    destruct (preferred q video) as [k'|] eqn:Hp.
    - intros [= <-]. exact (preferred_some q k' video Hp).
    - apply highest_some. }
  split; [exact Hs|]. split; [split|].
  - destruct (select q video) as [k|]; [eauto | discriminate].
  - intros [k Hk]. destruct (select q video) as [k'|] eqn:Hsel.
    + simpl. now apply Hs.
    + unfold select in Hsel.
      destruct (preferred q video); [discriminate|].
      apply highest_none in Hsel. destruct Hsel as (H1 & H2 & H3).
      destruct k; simpl in Hk; congruence.
  - unfold selectQuality, select, highest.
    destruct (preferred q video); [split; discriminate|].
    destruct (truthy (url_video_hd video)); [split; discriminate|].
    destruct (truthy (url_video video)); [split; discriminate|].
    destruct (truthy (url_video_low video)); split; try discriminate; reflexivity.
Qed.

(** X2: the quality preference is not case sensitive: two values with the
    same lower-case form select the same quality for every entry. *)
Theorem quality_case_insensitive (q1 q2 : string) (video : Entry) :
  toLowerCase q1 = toLowerCase q2 -> select q1 video = select q2 video.
Proof.
  intros H. unfold select, preferred. rewrite H.
  assert (Ht : truthy (Some q1) = truthy (Some q2)).
  { destruct q1, q2; simpl in H; try discriminate; reflexivity. }
  now rewrite Ht.
Qed.

Lemma quality_case_insensitive_witness :
  select "HD" only_hd = select "hd" only_hd.
Proof. apply (quality_case_insensitive "HD" "hd" only_hd eq_refl). Defined.

(** ** Exit codes *)

Lemma at_boundary_status (p : proc unit) :
  snd (at_boundary p) =
  match result p with
  | Ret _ => Running
  | Exit code => Exited code
  | Throw _ => Exited 1
  end.
Proof. destruct p as [tr [[] | e | c]]; reflexivity. Qed.

Lemma search_action_result w o :
  result (run_action w o Search) =
  let reply := backend w (build_query (or_else (opt_query o) "")
                            (channel_value (opt_channel o)) (opt_limit o)) in
  if truthy (r_err reply) then Throw (Rejection (or_else (r_err reply) ""))
  else Ret tt.
Proof.
  cbv zeta. unfold run_action, searchMovies, emit_if.
  destruct (backend w _) as [err R]. cbn [r_err].
  destruct (truthy err) eqn:Herr.
  - unfold on_response. cbn [r_err]. rewrite Herr.
    destruct (truthy (channel_value (opt_channel o)));
      destruct (truthy (opt_exclude o)); reflexivity.
  - rewrite (on_response_ok _ R err Herr).
    destruct (truthy (channel_value (opt_channel o)));
      destruct (truthy (opt_exclude o)); reflexivity.
Qed.

(** X3: a run ends with exit code 0 or 1, or the process stays on its open
    socket; the latter only happens after the search action. *)
Theorem exit_code_zero_or_one (w : World) (a : argv) (s : socket_event) :
  (snd (main w a s) = Exited 0 \/ snd (main w a s) = Exited 1
   \/ snd (main w a s) = Running) /\
  (snd (main w a s) = Running ->
   s = Connect /\ dispatch (parse_options (loaded w) a) = Search).
Proof.
  destruct s as [|error].
  - rewrite main_connect. cbn [snd].
    destruct (on_connect_status w (parse_options (loaded w) a)) as [c Hc].
    rewrite Hc, at_boundary_status.
    set (o := parse_options (loaded w) a).
    destruct (dispatch o) eqn:Hd; unfold run_action.
    + rewrite listChannels_exits_zero. split; [tauto | discriminate].
    + fold (run_action w (set_channel o c) Search).
      rewrite search_action_result. cbv zeta.
      match goal with |- context [if ?b then _ else _] => destruct b end;
        split; try tauto; discriminate.
    + rewrite getAndDownloadVideo_exit.
      destruct (lookup_refused _); split; try tauto; discriminate.
    + rewrite startInteractiveMode_exits_zero. split; [tauto | discriminate].
  - rewrite main_socket_error. cbn [snd]. split; [tauto | discriminate].
Qed.

Definition accepting : SearchQuery -> query_response :=
  fun _ => mkResponse None [only_hd].

Lemma exit_code_zero_or_one_witness :
  dispatch (parse_options
              (loaded (sample_world two_channels (found only_hd) accepting))
              search_args) = Search.
Proof.
  apply (proj2 (exit_code_zero_or_one
                  (sample_world two_channels (found only_hd) accepting)
                  search_args Connect)).
  reflexivity.
Defined.

(** ** Channel selection *)

(** X4: after the channel selection step [options.channel] is never the
    bare flag [true], and the channel list is requested for that step
    exactly when [-c] was given without a value. *)
Theorem channel_flag_resolved (w : World) (o : options) :
  (exists c, result (resolve_channel w o) = Ret (set_channel o c)
             /\ c <> ChannelFlag) /\
  (In FetchChannels (trace (resolve_channel w o)) <-> opt_channel o = ChannelFlag).
Proof.
  unfold resolve_channel, lift.
  destruct (opt_channel o) eqn:Hc.
  - split.
    + exists ChannelUnset. split; [|discriminate].
      destruct o; simpl in *; subst; reflexivity.
    + split; [intros [] | discriminate].
  - split.
    + destruct (select_channels w) as [data | e]; simpl.
      * destruct (0 <? length (or_else (ch_channels data) []))%nat; simpl.
        -- destruct (answer_channel w (or_else (ch_channels data) []));
             eexists; split; try reflexivity; discriminate.
        -- exists ChannelNull. split; [reflexivity | discriminate].
      * exists ChannelNull. split; [reflexivity | discriminate].
    + split; [reflexivity|].
      intros _. destruct (select_channels w) as [data | e]; simpl; [|now left].
      destruct (0 <? length (or_else (ch_channels data) []))%nat; simpl; now left.
  - split.
    + exists (ChannelName name). split; [|discriminate].
      destruct o; simpl in *; subst; reflexivity.
    + split; [intros [] | discriminate].
  - split.
    + exists ChannelNull. split; [|discriminate].
      destruct o; simpl in *; subst; reflexivity.
    + split; [intros [] | discriminate].
Qed.

(** ** The preferences file *)

(** X5: [loadConfig] writes the preferences file only when none exists (and
    the write succeeds), so an existing file is never overwritten; on that
    first run it returns the empty configuration, not the values of the
    file it has just created. *)
Theorem config_written_only_when_absent (w : World) :
  (In WriteConfig (trace (loadConfig w))
   <-> config_file w = None /\ exists u, write_config w = Ok u) /\
  (config_file w = None -> result (loadConfig w) = Ret empty_config).
Proof.
  unfold loadConfig, createDefaultConfig, lift.
  destruct (config_file w) as [[content | e]|]; simpl.
  - split; [|discriminate]. split; [|intros [[=] _]].
    destruct (ini_parse w content) as [c | e]; simpl; intros H;
      repeat destruct H as [H | H]; try discriminate; contradiction.
  - split; [|discriminate]. split; [|intros [[=] _]].
    intros [H | []]. discriminate.
  - destruct (write_config w) as [u | e]; simpl.
    + split; [|reflexivity]. split; [eauto | intros _; now left].
    + split; [|reflexivity]. split.
      * intros [H | []]. discriminate.
      * intros [_ [u [=]]].
Qed.

Lemma config_written_only_when_absent_witness :
  result (loadConfig (sample_world two_channels (found only_hd) no_reply))
  = Ret empty_config.
Proof.
  apply (proj2 (config_written_only_when_absent
                  (sample_world two_channels (found only_hd) no_reply))).
  reflexivity.
Defined.

(** ** Interactive mode: empty and rejected searches *)

(** The events of interactive mode up to the reply of the search. *)
Definition interactive_prefix (w : World) (o : options) : list event :=
  FetchChannels :: PromptQuery ::
  (if truthy (or_default (opt_exclude o) None)
   then [Log (MExcluding (or_else (or_default (opt_exclude o) None) ""))]
   else []) ++
  trace (searchMovies w (answer_query w)
           (or_default (channel_value (opt_channel o)) None)
           (or_default (opt_limit o) None)
           (or_default (opt_exclude o) None)).

(** X6: when the search of interactive mode yields no entry (none replied,
    or all excluded), the action prints "No results found." and exits with
    code 0 without asking for a video and without any download. *)
Theorem interactive_no_results (w : World) (o : options) (data : channels_data) :
  interactive_channels w = Ok data ->
  result (searchMovies w (answer_query w)
            (or_default (channel_value (opt_channel o)) None)
            (or_default (opt_limit o) None)
            (or_default (opt_exclude o) None)) = Ret [] ->
  startInteractiveMode w o = (interactive_prefix w o ++ [Log MNoResults], Exit 0).
Proof.
  intros Hd Hs.
  unfold startInteractiveMode, interactive_prefix, lift, emit_if.
  rewrite Hd; simpl. rewrite (searchMovies_eta _ _ _ _ _ _ Hs).
  destruct (truthy (or_default (opt_exclude o) None)); simpl;
    rewrite <- ?app_assoc; reflexivity.
Qed.

Definition zdf_only : SearchQuery -> query_response :=
  fun _ => mkResponse None [zdf_entry; zdf_entry].

Definition exclude_zdf : options :=
  parse_options empty_config
    (mkArgv None false None None None true None None (Some "ZDF") None false).

Lemma interactive_no_results_witness :
  result (startInteractiveMode (sample_world two_channels (found only_hd) zdf_only)
            exclude_zdf) = Exit 0.
Proof.
  rewrite (interactive_no_results
             (sample_world two_channels (found only_hd) zdf_only) exclude_zdf
             (mkChannels None (Some ["ZDF"; "ARD"])) eq_refl eq_refl).
  reflexivity.
Defined.

(** X7: a reply with [err] makes [searchMovies] print "Error searching:"
    and reject with that payload, whatever entries the reply carries; in
    interactive mode the rejection is caught, reported as "Interactive mode
    failed" and followed by exit code 0, with no video prompt. *)
Theorem rejected_search (w : World) (query : string)
    (channel limit exclude : option string) (e : string) :
  r_err (backend w (build_query query channel limit)) = Some e ->
  e <> "" ->
  searchMovies w query channel limit exclude =
    ([ Spinner (SStart "Searching...");
       EmitQuery (build_query query channel limit);
       Spinner SStop;
       Err (MErrorSearching e) ],
     Throw (Rejection e)) /\
  (forall o data,
      interactive_channels w = Ok data ->
      query = answer_query w ->
      channel = or_default (channel_value (opt_channel o)) None ->
      limit = or_default (opt_limit o) None ->
      exclude = or_default (opt_exclude o) None ->
      startInteractiveMode w o =
        (interactive_prefix w o ++ [Err (MInteractiveFailed (Rejection e))], Exit 0)).
Proof.
  intros He Hne.
  assert (Ht : truthy (Some e) = true).
  { simpl. apply String.eqb_neq in Hne. now rewrite Hne. }
  assert (Hs : searchMovies w query channel limit exclude =
               ([ Spinner (SStart "Searching...");
                  EmitQuery (build_query query channel limit);
                  Spinner SStop;
                  Err (MErrorSearching e) ],
                Throw (Rejection e))).
  { unfold searchMovies, on_response. rewrite He, Ht. reflexivity. }
  split; [exact Hs|].
  intros o data Hd -> Hc Hl Hx.
  unfold startInteractiveMode, interactive_prefix, lift, emit_if.
  rewrite Hd; simpl. rewrite <- Hc, <- Hl, <- Hx. rewrite Hs.
  destruct (truthy exclude); reflexivity.
Qed.

Lemma rejected_search_witness :
  result (searchMovies (sample_world two_channels (found only_hd) rejecting)
            "Tatort" None None None) = Throw (Rejection "query too long").
Proof.
  rewrite (proj1 (rejected_search
                    (sample_world two_channels (found only_hd) rejecting)
                    "Tatort" None None None "query too long" eq_refl
                    ltac:(discriminate))).
  reflexivity.
Defined.

(** ** File names *)

(** The default file name offered by [downloadVideo]. *)
Definition defaultFilename (video : Entry) : string :=
  (sanitize (title video) ++ "-" ++ channel video ++ ".mp4")%string.

Fixpoint has_reserved (s : string) : bool :=
  match s with
  | EmptyString => false
  | String c r => reserved c || has_reserved r
  end.

Lemma has_reserved_app s t :
  has_reserved (s ++ t) = has_reserved s || has_reserved t.
Proof.
  induction s as [|c r IH]; [reflexivity|].
  cbn [append has_reserved]. rewrite IH. apply orb_assoc.
Qed.

Lemma sanitize_no_reserved s : has_reserved (sanitize s) = false.
Proof.
  induction s as [|c r IH]; [reflexivity|].
  cbn [sanitize has_reserved]. rewrite IH.
  destruct (reserved c) eqn:Hc; [reflexivity | now rewrite Hc].
Qed.

(** X8: the title part of the default file name is free of the characters
    the pattern lists, has the length of the title, and a title without
    such characters is kept; the channel is appended as it is, so the
    default file name holds such a character exactly when the channel name
    does. *)
Theorem default_filename_sanitized (video : Entry) :
  has_reserved (sanitize (title video)) = false /\
  String.length (sanitize (title video)) = String.length (title video) /\
  (has_reserved (title video) = false -> sanitize (title video) = title video) /\
  has_reserved (defaultFilename video) = has_reserved (channel video).
Proof.
  split; [apply sanitize_no_reserved|]. split; [|split].
  - induction (title video) as [|c r IH]; [reflexivity|].
    cbn [sanitize String.length]. now rewrite IH.
  - induction (title video) as [|c r IH]; [reflexivity|].
    cbn [sanitize has_reserved]. intros H.
    apply orb_false_iff in H. destruct H as [Hc Hr].
    rewrite Hc, (IH Hr). reflexivity.
  - unfold defaultFilename. rewrite !has_reserved_app, sanitize_no_reserved.
    simpl. now rewrite orb_false_r.
Qed.

Lemma default_filename_sanitized_witness :
  sanitize (title only_hd) = title only_hd.
Proof.
  apply (proj1 (proj2 (proj2 (default_filename_sanitized only_hd)))).
  reflexivity.
Defined.

(** ** What [downloadVideo] does and does not do *)

Lemma expandTildePath_absolute home p :
  isAbsolute p = true -> expandTildePath home p = p.
Proof.
  intros Ha. unfold expandTildePath. fold (has_tilde p).
  destruct p as [|c r]; [discriminate|].
  unfold isAbsolute in Ha. rewrite prefix_cons in Ha.
  destruct (Ascii.eqb "/" c) eqn:Hc; [|discriminate].
  apply Ascii.eqb_eq in Hc. subst c.
  rewrite has_tilde_first by discriminate. reflexivity.
Qed.

(** Case analysis over everything the transfer part of [downloadVideo]
    asks the world. *)
Ltac transfer_cases w url :=
  destruct (mpv_available w) eqn:?Hmpv;
  [ destruct (answer_action w) eqn:?Hact | ];
  cbn [bind emit ret throw try_catch app];
  try (destruct (asset w url) as [[[] ?]|?] eqn:?Hasset;
       cbn [bind emit ret throw try_catch app ok negb];
       try (destruct (stream w) as [[]|?] eqn:?Hstream;
            cbn [bind emit ret throw try_catch app]));
  cbn [In trace fst].

Ltac in_list :=
  cbn [In trace fst] in *;
  repeat match goal with
         | H : _ \/ _ |- _ => destruct H
         | H : False |- _ => destruct H
         | H : _ = _ |- _ => discriminate H
         | H : OpenFile _ = OpenFile _ |- _ => injection H as H; subst
         end.

(** X9: with [-o], [downloadVideo] does not ask for a file name: it
    announces the given path after tilde expansion (an absolute path
    unchanged), and a file it opens is that one.  Without [-o] it asks,
    offering the default name; accepting the default downloads to that
    name in the working directory. *)
Theorem output_path_used (w : World) (o : options) (url : option string)
    (filename : string) (video : Entry) :
  let tr := trace (downloadVideo w o url filename video) in
  (forall p, opt_output o = Some p -> p <> "" ->
     (forall d, ~ In (PromptFilename d) tr) /\
     In (Log (MDownloadingTo (resolve_path w p))) tr /\
     (forall f, In (OpenFile f) tr -> f = resolve_path w p) /\
     (isAbsolute p = true -> resolve_path w p = p)) /\
  (truthy (opt_output o) = false ->
     In (PromptFilename (defaultFilename video)) tr /\
     (answer_filename w (defaultFilename video) = defaultFilename video ->
      In (Log (MDownloadingTo (path_join w (cwd w) (defaultFilename video)))) tr)).
Proof.
  cbv zeta. split.
  - intros p Hp Hne.
    assert (Ht : truthy (opt_output o) = true).
    { rewrite Hp. simpl. apply String.eqb_neq in Hne. now rewrite Hne. }
    split; [|split; [|split]].
    + intros d. unfold downloadVideo, lift. rewrite Ht, Hp. cbn [or_else].
      transfer_cases w url; intros H; in_list.
    + unfold downloadVideo, lift. rewrite Ht, Hp. cbn [or_else].
      transfer_cases w url; now left.
    + intros f. unfold downloadVideo, lift. rewrite Ht, Hp. cbn [or_else].
      transfer_cases w url; intros H; in_list; reflexivity.
    + intros Ha. unfold resolve_path.
      rewrite (expandTildePath_absolute (homedir w) p Ha). now rewrite Ha.
  - intros Ht. unfold downloadVideo, lift. rewrite Ht.
    fold (defaultFilename video). split.
    + destruct (negb (answer_filename w (defaultFilename video) =? defaultFilename video));
        transfer_cases w url; now left.
    + intros Ha. rewrite Ha, String.eqb_refl. cbn [negb].
      transfer_cases w url; right; now left.
Qed.

Definition with_output : options :=
  parse_options empty_config
    (mkArgv None false None (Some "id-1") (Some "/tmp/tatort.mp4") false None None
       None None false).

Lemma output_path_used_witness :
  resolve_path (sample_world two_channels (found only_hd) no_reply) "/tmp/tatort.mp4"
  = "/tmp/tatort.mp4".
Proof.
  apply (proj1 (output_path_used (sample_world two_channels (found only_hd) no_reply)
                  with_output (Some "https://cdn.example/hd.mp4") "" only_hd)
           "/tmp/tatort.mp4" eq_refl ltac:(discriminate)).
  reflexivity.
Defined.

Definition is_transfer (e : event) : bool :=
  match e with
  | FetchUrl _ | OpenFile _ => true
  | _ => false
  end.

(** X10: when [mpv] is found and the user answers "Play" or "Cancel",
    [downloadVideo] neither fetches the asset nor opens a file; the player
    is started on the URL exactly for "Play". *)
Theorem play_or_cancel_transfers_nothing (w : World) (o : options)
    (url : option string) (filename : string) (video : Entry) :
  mpv_available w = true ->
  answer_action w <> Download ->
  (forall e, In e (trace (downloadVideo w o url filename video)) -> is_transfer e = false) /\
  (In (SpawnPlayer url) (trace (downloadVideo w o url filename video))
   <-> answer_action w = Play).
Proof.
  intros Hm Ha. unfold downloadVideo, lift.
  destruct (truthy (opt_output o));
    [| destruct (negb (_ =? _)) ];
    transfer_cases w url; try discriminate; try congruence;
    (split;
     [ intros ev H; repeat (destruct H as [H | H]; [subst ev; reflexivity|]); destruct H
     | split; [ intros H; in_list; reflexivity | intros H; try discriminate; tauto ] ]).
Qed.

Definition mpv_world (answer : choice) : World :=
  {| homedir := "/home/user";
     cwd := "/work";
     path_join := fun a b => (a ++ "/" ++ b)%string;
     config_file := None;
     ini_parse := fun _ => Ok empty_config;
     write_config := Ok tt;
     select_channels := two_channels;
     list_channels := two_channels;
     interactive_channels := two_channels;
     entries := fun _ => found only_hd;
     backend := no_reply;
     description := fun _ => "document not found";
     answer_channel := fun _ => None;
     answer_query := "Tatort";
     answer_video := fun l => hd no_urls l;
     answer_filename := fun d => d;
     mpv_available := true;
     answer_action := answer;
     player_exit := 0;
     asset := fun _ => Ok (mkAsset true "OK");
     stream := Ok tt |}.

Lemma play_or_cancel_transfers_nothing_witness :
  In (SpawnPlayer (Some "https://cdn.example/hd.mp4"))
    (trace (downloadVideo (mpv_world Play) default_options
              (Some "https://cdn.example/hd.mp4") "" only_hd)).
Proof.
  apply (proj2 (play_or_cancel_transfers_nothing (mpv_world Play) default_options
                  (Some "https://cdn.example/hd.mp4") "" only_hd eq_refl
                  ltac:(discriminate))).
  reflexivity.
Defined.

(** X11: [downloadVideo] reports "Download complete!" exactly when the
    transfer was not redirected to the player or cancelled, the response
    was a success and the stream finished.  A file is only opened after a
    successful response; a response that is not [ok] is reported as
    "Failed to download: <status text>". *)
Theorem download_complete_iff (w : World) (o : options) (url : option string)
    (filename : string) (video : Entry) :
  let tr := trace (downloadVideo w o url filename video) in
  (In (Spinner (SSucceed "Download complete!")) tr
   <-> (mpv_available w = false \/ answer_action w = Download)
       /\ (exists st, asset w url = Ok (mkAsset true st))
       /\ stream w = Ok tt) /\
  (forall f, In (OpenFile f) tr -> exists st, asset w url = Ok (mkAsset true st)) /\
  (forall st, (mpv_available w = false \/ answer_action w = Download) ->
     asset w url = Ok (mkAsset false st) ->
     In (Spinner (SFail ("Failed to download: " ++ st))) tr
     /\ forall f, ~ In (OpenFile f) tr).
Proof.
  cbv zeta. unfold downloadVideo, lift.
  destruct (truthy (opt_output o));
    [| destruct (negb (_ =? _)) ];
    transfer_cases w url;
    ((split; [split | split]);
    [ intros H; in_list; repeat split; eauto
    | intros (H1 & (st' & H2) & H3);
      try discriminate H2; try discriminate H3;
      destruct H1 as [H1 | H1]; try discriminate H1;
      repeat first [left; reflexivity | right]
    | intros f H; in_list; eauto
    | intros st' H1 H2; try discriminate H2;
      destruct H1 as [H1 | H1]; try discriminate H1;
      injection H2 as <-;
      (split; [repeat first [left; reflexivity | right] | intros f H; in_list]) ]).
Qed.

Definition not_found_world : World :=
  mkWorld "/home/user" "/work" (fun a b => (a ++ "/" ++ b)%string)
    None (fun _ => Ok empty_config) (Ok tt) two_channels two_channels
    two_channels (fun _ => found only_hd) no_reply
    (fun _ => "document not found") (fun _ => None) "Tatort"
    (fun l => hd no_urls l) (fun d => d) false Download 0
    (fun _ => Ok (mkAsset false "Not Found")) (Ok tt).

Lemma download_complete_iff_witness :
  In (Spinner (SFail "Failed to download: Not Found"))
    (trace (downloadVideo not_found_world default_options
              (Some "https://cdn.example/hd.mp4") "" only_hd)).
Proof.
  apply (proj1 (proj2 (proj2 (download_complete_iff not_found_world default_options
                    (Some "https://cdn.example/hd.mp4") "" only_hd))
             "Not Found" (or_introl eq_refl) eq_refl)).
Defined.

(** ** The names derived from [--exclude] *)

Fixpoint contains (c : ascii) (s : string) : bool :=
  match s with
  | EmptyString => false
  | String a r => Ascii.eqb a c || contains c r
  end.

Definition starts_nonspace (s : string) : bool :=
  match s with
  | EmptyString => true
  | String c _ => negb (is_space c)
  end.

Lemma trimStart_starts_nonspace s : starts_nonspace (trimStart s) = true.
Proof.
  induction s as [|c r IH]; [reflexivity|].
  cbn [trimStart]. destruct (is_space c) eqn:Hc; [exact IH|].
  cbn [starts_nonspace]. now rewrite Hc.
Qed.

Lemma trimStart_fixed s : starts_nonspace s = true -> trimStart s = s.
Proof.
  destruct s as [|c r]; [reflexivity|].
  cbn [starts_nonspace trimStart]. intros H. apply negb_true_iff in H. now rewrite H.
Qed.

Lemma trimEnd_starts_nonspace s :
  starts_nonspace s = true -> starts_nonspace (trimEnd s) = true.
Proof.
  destruct s as [|c r]; [reflexivity|].
  cbn [starts_nonspace trimEnd]. intros H.
  destruct (trimEnd r); [|exact H].
  apply negb_true_iff in H. rewrite H. cbn [starts_nonspace]. now rewrite H.
Qed.

Lemma trimEnd_idempotent s : trimEnd (trimEnd s) = trimEnd s.
Proof.
  induction s as [|c r IH]; [reflexivity|].
  cbn [trimEnd]. destruct (trimEnd r) as [|a r'] eqn:E.
  - destruct (is_space c) eqn:Hc; [reflexivity|].
    cbn [trimEnd]. now rewrite Hc.
  - change (trimEnd (String c (String a r')))
      with (match trimEnd (String a r') with
            | EmptyString => if is_space c then EmptyString else String c EmptyString
            | String a' r'' => String c (String a' r'')
            end).
    now rewrite IH.
Qed.

Lemma trim_idempotent s : trim (trim s) = trim s.
Proof.
  unfold trim.
  rewrite (trimStart_fixed (trimEnd (trimStart s))).
  - apply trimEnd_idempotent.
  - apply trimEnd_starts_nonspace, trimStart_starts_nonspace.
Qed.

Lemma contains_trimStart c s : contains c s = false -> contains c (trimStart s) = false.
Proof.
  induction s as [|a r IH]; [reflexivity|].
  cbn [trimStart]. destruct (is_space a); [|trivial].
  cbn [contains]. intros H. apply orb_false_iff in H. now apply IH.
Qed.

Lemma contains_trimEnd c s : contains c s = false -> contains c (trimEnd s) = false.
Proof.
  induction s as [|a r IH]; [reflexivity|].
  cbn [contains trimEnd]. intros H. apply orb_false_iff in H. destruct H as [Ha Hr].
  specialize (IH Hr). destruct (trimEnd r) as [|b r'].
  - destruct (is_space a); [reflexivity|]. cbn [contains]. now rewrite Ha.
  - cbn [contains] in *. now rewrite Ha, IH.
Qed.

Lemma split_nonempty sep s : split sep s <> [].
Proof.
  destruct s as [|c r]; cbn [split]; [discriminate|].
  destruct (Ascii.eqb c sep); [discriminate|].
  destruct (split sep r); discriminate.
Qed.

Lemma split_pieces_without_separator sep s p :
  In p (split sep s) -> contains sep p = false.
Proof.
  revert p. induction s as [|c r IH]; cbn [split]; intros p Hp.
  - destruct Hp as [<- | []]. reflexivity.
  - destruct (Ascii.eqb c sep) eqn:Hc.
    + destruct Hp as [<- | Hp]; [reflexivity | now apply IH].
    + destruct (split sep r) as [|p0 ps].
      * destruct Hp as [<- | []]. cbn [contains]. now rewrite Hc.
      * destruct Hp as [<- | Hp].
        -- cbn [contains]. rewrite Hc. apply IH. now left.
        -- apply IH. now right.
Qed.

(** X12: every name in the list derived from [--exclude] is trimmed and
    holds no comma.  So an entry whose channel name has white space at an
    end, or holds a comma, is never removed by the exclusion filter. *)
Theorem exclusion_names_normalised (exclude : string) :
  (forall x, In x (excludedChannelsList (Some exclude)) ->
     trim x = x /\ contains "," x = false) /\
  (forall e R err,
     truthy err = false -> In e R ->
     trim (channel e) <> channel e \/ contains "," (channel e) = true ->
     exists results,
       result (on_response (excludedChannelsList (Some exclude)) (mkResponse err R))
         = Ret results /\ In e results).
Proof.
  assert (Hnames : forall x, In x (excludedChannelsList (Some exclude)) ->
                     trim x = x /\ contains "," x = false).
  { intros x. unfold excludedChannelsList.
    destruct (truthy (Some exclude)); [|intros []].
    rewrite in_map_iff. intros (p & <- & Hp). split.
    - apply trim_idempotent.
    - unfold trim. apply contains_trimEnd, contains_trimStart.
      exact (split_pieces_without_separator "," exclude p Hp). }
  split; [exact Hnames|].
  intros e R err Herr HR Hodd.
  rewrite (on_response_ok _ R err Herr). eexists. split; [reflexivity|].
  apply minus_channels_In. split; [exact HR|].
  intros Hin. destruct (Hnames _ Hin) as [Ht Hc].
  destruct Hodd as [Hodd | Hodd]; congruence.
Qed.

Definition odd_channel : Entry :=
  mkEntry "id-3" "Nachrichten" " ZDF" 900 1700000200 None None None.

Lemma exclusion_names_normalised_witness :
  exists results,
    result (on_response (excludedChannelsList (Some " ZDF,NDR"))
              (mkResponse None [odd_channel])) = Ret results
    /\ In odd_channel results.
Proof.
  apply (proj2 (exclusion_names_normalised " ZDF,NDR") odd_channel [odd_channel] None
           eq_refl (or_introl eq_refl)).
  left. discriminate.
Defined.

Fixpoint count_char (c : ascii) (s : string) : nat :=
  match s with
  | EmptyString => 0
  | String a r => (if Ascii.eqb a c then 1 else 0) + count_char c r
  end.

(** X13: splitting at a separator loses nothing: the pieces joined with
    the separator give the string back, and there is one piece more than
    there are separators (so a doubled or trailing comma in [--exclude]
    yields an empty name). *)
Theorem split_join (sep : ascii) (s : string) :
  String.concat (String sep EmptyString) (split sep s) = s /\
  length (split sep s) = S (count_char sep s).
Proof.
  induction s as [|c r [IHc IHl]]; [split; reflexivity|].
  cbn [split count_char]. destruct (Ascii.eqb c sep) eqn:Hc.
  - apply Ascii.eqb_eq in Hc. subst c. split.
    + pose proof (split_nonempty sep r) as Hne.
      destruct (split sep r) as [|p ps]; [congruence|].
      change (String.concat (String sep "") ("" :: p :: ps))
        with (String sep (String.concat (String sep "") (p :: ps))).
      now rewrite IHc.
    + cbn [length]. now rewrite IHl.
  - pose proof (split_nonempty sep r) as Hne.
    destruct (split sep r) as [|p ps]; [congruence|]. split.
    + destruct ps as [|p' ps'].
      * cbn [String.concat] in *. now rewrite IHc.
      * change (String.concat (String sep "") (String c p :: p' :: ps'))
          with (String c (p ++ String sep ""
                          ++ String.concat (String sep "") (p' :: ps')))%string.
        change (String.concat (String sep "") (p :: p' :: ps'))
          with (p ++ String sep "" ++ String.concat (String sep "") (p' :: ps'))%string
          in IHc.
        now rewrite IHc.
    + cbn [length] in *. exact IHl.
Qed.

(** ** Tilde expansion prepends the home directory *)

Lemma getSubstitution_literal m b a t :
  contains "$" t = false -> getSubstitution m b a t = t.
Proof.
  induction t as [|c r IH]; [reflexivity|].
  cbn [contains]. intros H. apply orb_false_iff in H. destruct H as [Hc Hr].
  cbn [getSubstitution]. rewrite Hc. now rewrite (IH Hr).
Qed.

(** X14: with a home directory that holds no dollar sign, ["~/rest"]
    expands to the home directory followed by ["/rest"] and ["~"] to the
    home directory itself; a tilde followed by anything but a slash
    (["~user"], a backslash) is left as it is, whatever the home
    directory. *)
Theorem tilde_expands_to_home (home : string) :
  (contains "$" home = false ->
   (forall rest, expandTildePath home (String "~" (String "/" rest))
                 = (home ++ String "/" rest)%string) /\
   expandTildePath home "~" = home) /\
  (forall c rest, c <> "/"%char ->
     expandTildePath home (String "~" (String c rest)) = String "~" (String c rest)).
Proof.
  split.
  - intros Hh. split.
    + intros rest. unfold expandTildePath, replace_leading_tilde.
      rewrite !prefix_cons.
      replace (String.prefix "" rest) with true by (destruct rest; reflexivity).
      cbv -[getSubstitution append].
      now rewrite getSubstitution_literal.
    + unfold expandTildePath, replace_leading_tilde.
      cbv -[getSubstitution append].
      rewrite getSubstitution_literal by assumption.
      clear Hh. induction home as [|a r IH]; [reflexivity|].
      cbn [append]. f_equal. apply IH.
  - intros c rest Hc. unfold expandTildePath.
    rewrite prefix_cons, Ascii.eqb_refl, prefix_cons.
    apply Ascii.eqb_neq in Hc. rewrite Ascii.eqb_sym, Hc.
    rewrite eqb_cons, Ascii.eqb_refl. reflexivity.
Qed.

Lemma tilde_expands_to_home_witness :
  expandTildePath "/home/user" "~/Videos/mediathek.mp4"
  = "/home/user/Videos/mediathek.mp4" /\
  expandTildePath "/home/user" "~user/x" = "~user/x".
Proof.
  split.
  - apply (proj1 (proj1 (tilde_expands_to_home "/home/user") eq_refl)).
  - apply (proj2 (tilde_expands_to_home "/home/user")). discriminate.
Defined.

(** ** The channel list is printed in order *)

From Stdlib Require Sorted Permutation.









(** ** Progress of a transfer

    The ['data'] handler installed by [downloadVideo] keeps two counters,
    [downloadedBytes] and [lastLoggedPercent], and reports progress through
    [debug].  With a known total size the percentage is
    [Math.round((downloadedBytes / totalSize) * 100)], a floating-point
    computation that is kept abstract here; without one the marks are whole
    mebibytes, which the integers compute exactly (for byte counts below
    2^53). *)

Section Progress.

Variable percent : Z -> Z -> Z.

Record progress := mkProgress { downloadedBytes : Z; lastLoggedPercent : Z }.

Definition MiB : Z := 1048576.

(** [if (totalSize)] where [totalSize = parseInt(contentLength, 10)]. *)
Definition known (totalSize : option Z) : option Z :=
  match totalSize with
  | Some t => if (t =? 0)%Z then None else Some t
  | None => None
  end.

(** One ['data'] event with a chunk of [chunk] bytes: the new counters and
    the report made, if any, as the pair of the bytes received so far and
    the new mark. *)
Definition on_data (totalSize : option Z) (st : progress) (chunk : N)
  : progress * list (Z * Z) :=
  let downloaded := (downloadedBytes st + Z.of_N chunk)%Z in
  match known totalSize with
  | Some t =>
      let p := percent downloaded t in
      if (lastLoggedPercent st + 10 <=? p)%Z
      then (mkProgress downloaded p, [(downloaded, p)])
      else (mkProgress downloaded (lastLoggedPercent st), [])
  | None =>
      if ((lastLoggedPercent st + 10) * MiB <=? downloaded)%Z
      then (mkProgress downloaded (downloaded / MiB),
            [(downloaded, (downloaded / MiB)%Z)])
      else (mkProgress downloaded (lastLoggedPercent st), [])
  end.

Fixpoint receive (totalSize : option Z) (st : progress) (chunks : list N)
  : progress * list (Z * Z) :=
  match chunks with
  | [] => (st, [])
  | chunk :: rest =>
      let (st1, r1) := on_data totalSize st chunk in
      let (st2, r2) := receive totalSize st1 rest in
      (st2, r1 ++ r2)
  end.

Definition initial : progress := mkProgress 0 0.

(** The bytes of all chunks together. *)
Definition total (chunks : list N) : N := fold_right N.add 0%N chunks.

(** Each mark lies at least ten above the one before. *)
Fixpoint spaced (prev : Z) (marks : list Z) : Prop :=
  match marks with
  | [] => True
  | m :: ms => (prev + 10 <= m)%Z /\ spaced m ms
  end.

Lemma receive_counts totalSize chunks st :
  let (st', reports) := receive totalSize st chunks in
  downloadedBytes st' = (downloadedBytes st + Z.of_N (total chunks))%Z /\
  spaced (lastLoggedPercent st) (map snd reports) /\
  (lastLoggedPercent st + 10 * Z.of_nat (length reports) <= lastLoggedPercent st')%Z.
Proof.
  revert st. induction chunks as [|chunk rest IH]; intros st.
  - cbn. repeat split; lia.
  - cbn [receive].
    change (total (chunk :: rest)) with (chunk + total rest)%N.
    destruct (on_data totalSize st chunk) as [st1 r1] eqn:H1.
    specialize (IH st1). destruct (receive totalSize st1 rest) as [st2 r2].
    destruct IH as (Hd & Hs & Hl).
    unfold on_data in H1.
    destruct (known totalSize) as [t|].
    + destruct (lastLoggedPercent st + 10 <=? percent _ t)%Z eqn:Hle;
        injection H1 as <- <-; cbn [downloadedBytes lastLoggedPercent] in *.
      * apply Z.leb_le in Hle. cbn [app map snd spaced length].
        repeat split; try assumption; lia.
      * cbn [app]. repeat split; try assumption; lia.
    + destruct ((lastLoggedPercent st + 10) * MiB <=? _)%Z eqn:Hle;
        injection H1 as <- <-; cbn [downloadedBytes lastLoggedPercent] in *.
      * apply Z.leb_le in Hle. cbn [app map snd spaced length].
        assert (lastLoggedPercent st + 10
                <= (downloadedBytes st + Z.of_N chunk) / MiB)%Z.
        { apply Z.div_le_lower_bound; [reflexivity | unfold MiB in *; lia]. }
        repeat split; try assumption; lia.
      * cbn [app]. repeat split; try assumption; lia.
Qed.

Lemma receive_whole_mebibytes totalSize chunks st :
  known totalSize = None ->
  (0 <= downloadedBytes st)%Z ->
  (lastLoggedPercent st * MiB <= downloadedBytes st)%Z ->
  let (st', reports) := receive totalSize st chunks in
  (lastLoggedPercent st' * MiB <= downloadedBytes st')%Z /\
  Forall (fun r => snd r = (fst r / MiB)%Z) reports.
Proof.
  intros Hk. revert st. induction chunks as [|chunk rest IH]; intros st H0 Hinv.
  - cbn. split; [assumption | constructor].
  - cbn [receive].
    destruct (on_data totalSize st chunk) as [st1 r1] eqn:H1.
    unfold on_data in H1. rewrite Hk in H1.
    assert (Hst1 : (0 <= downloadedBytes st1)%Z /\
                   (lastLoggedPercent st1 * MiB <= downloadedBytes st1)%Z /\
                   Forall (fun r => snd r = (fst r / MiB)%Z) r1).
    { destruct ((lastLoggedPercent st + 10) * MiB <=? _)%Z;
        injection H1 as <- <-; cbn [downloadedBytes lastLoggedPercent].
      - split; [lia|]. split; [|repeat constructor].
        rewrite Z.mul_comm. apply Z.mul_div_le. reflexivity.
      - split; [lia|]. split; [lia | constructor]. }
    destruct Hst1 as (Hpos & Hinv1 & Hr1).
    specialize (IH st1 Hpos Hinv1).
    destruct (receive totalSize st1 rest) as [st2 r2].
    destruct IH as [Hinv2 Hr2]. split; [exact Hinv2|].
    apply Forall_app. now split.
Qed.

End Progress.

(** X16: whatever the chunks and whether or not the total size is known,
    the progress marks reported during a transfer start at least ten above
    zero and each lies at least ten above the one before, so the last mark
    is at least ten times the number of reports; the byte counter is the
    sum of the chunk lengths. *)
Theorem progress_reports_spaced (percent : Z -> Z -> Z) (totalSize : option Z)
    (chunks : list N) :
  let st := fst (receive percent totalSize initial chunks) in
  let reports := snd (receive percent totalSize initial chunks) in
  downloadedBytes st = Z.of_N (total chunks) /\
  spaced 0 (map snd reports) /\
  (10 * Z.of_nat (length reports) <= lastLoggedPercent st)%Z.
Proof.
  cbv zeta. pose proof (receive_counts percent totalSize chunks initial) as H.
  destruct (receive percent totalSize initial chunks) as [st reports].
  cbn [fst snd]. cbn [initial downloadedBytes lastLoggedPercent] in H.
  destruct H as (Hd & Hs & Hl). repeat split; try assumption; lia.
Qed.

(** X17: without a usable [content-length] (absent, not a number, or 0)
    every mark is the whole number of mebibytes received at that moment, a
    mark never exceeds what was received, and at least ten mebibytes were
    received per report; in particular nothing is reported while less than
    ten mebibytes have arrived. *)
Theorem progress_unknown_size (percent : Z -> Z -> Z) (totalSize : option Z)
    (chunks : list N) :
  known totalSize = None ->
  let st := fst (receive percent totalSize initial chunks) in
  let reports := snd (receive percent totalSize initial chunks) in
  Forall (fun r => snd r = (fst r / MiB)%Z) reports /\
  (lastLoggedPercent st * MiB <= downloadedBytes st)%Z /\
  (10 * MiB * Z.of_nat (length reports) <= Z.of_N (total chunks))%Z /\
  (Z.of_N (total chunks) < 10 * MiB -> reports = [])%Z.
Proof.
  intros Hk. cbv zeta.
  pose proof (receive_counts percent totalSize chunks initial) as H.
  pose proof (receive_whole_mebibytes percent totalSize chunks initial Hk) as H'.
  destruct (receive percent totalSize initial chunks) as [st reports].
  cbn [fst snd]. cbn [initial downloadedBytes lastLoggedPercent] in H, H'.
  destruct H as (Hd & Hs & Hl).
  destruct H' as [Hinv Hr]; [lia | unfold MiB; lia |].
  assert (Hb : (10 * MiB * Z.of_nat (length reports) <= Z.of_N (total chunks))%Z).
  { unfold MiB in *. lia. }
  repeat split; try assumption.
  intros Hsmall. destruct reports as [|r rs]; [reflexivity|].
  cbn [length] in Hb. unfold MiB in *. lia.
Qed.

Lemma progress_unknown_size_witness :
  snd (receive (fun _ _ => 0%Z) None initial [4194304; 4194304; 4194304; 4194304]%N)
  = [(12582912%Z, 12%Z)]
  /\ snd (receive (fun _ _ => 0%Z) None initial [4194304; 4194304]%N) = [].
Proof.
  split; [vm_compute; reflexivity|].
  apply (proj2 (proj2 (proj2
           (progress_unknown_size (fun _ _ => 0%Z) None [4194304; 4194304]%N eq_refl)))).
  vm_compute. reflexivity.
Defined.

(** ** The requests of a run *)

Definition is_request (e : event) : bool :=
  match e with
  | FetchChannels | FetchEntries _ | FetchUrl _ | EmitQuery _ | EmitDescription _ => true
  | _ => false
  end.

(** The requests sent to the backend, in the order they are sent. *)
Definition requests (tr : list event) : list event := filter is_request tr.

Lemma requests_app a b : requests (a ++ b) = requests a ++ requests b.
Proof. apply filter_app. Qed.















(** ** A readable preferences file *)

(** X19: when the preferences file is read and parsed, [loadConfig] prints
    nothing and returns the parsed values; only [output] may differ, by
    tilde expansion, and a configuration whose [output] is absent or an
    absolute path is returned exactly as parsed. *)
Theorem config_loaded_as_parsed (w : World) (content : string) (c : config) :
  config_file w = Some (Ok content) ->
  ini_parse w content = Ok c ->
  exists c',
    loadConfig w = ([], Ret c') /\
    cfg_server c' = cfg_server c /\ cfg_channel c' = cfg_channel c /\
    cfg_quality c' = cfg_quality c /\ cfg_limit c' = cfg_limit c /\
    cfg_exclude c' = cfg_exclude c /\
    (forall p, cfg_output c = Some p ->
       cfg_output c' = Some (expandTildePath (homedir w) p)) /\
    ((cfg_output c = None \/ exists p, cfg_output c = Some p /\ isAbsolute p = true) ->
     c' = c).
Proof.
  intros Hf Hp. unfold loadConfig. rewrite Hf. cbn [bind ret throw app].
  rewrite Hp. cbn [bind ret throw app try_catch].
  destruct c as [srv ch q l ex out]. cbn [cfg_output].
  destruct out as [p|]; cbn [truthy].
  - destruct (p =? "") eqn:Hempty; cbn [negb]; eexists; (split; [reflexivity|]);
      cbn [cfg_server cfg_channel cfg_quality cfg_limit cfg_exclude cfg_output
           set_output option_map]; repeat (split; [reflexivity|]).
    + apply String.eqb_eq in Hempty. subst p. split.
      * intros p' [= <-]. reflexivity.
      * reflexivity.
    + split.
      * intros p' [= <-]. reflexivity.
      * intros [[=] | (p' & [= <-] & Ha)].
        now rewrite (expandTildePath_absolute (homedir w) p Ha).
  - eexists. split; [reflexivity|].
    repeat (split; [reflexivity|]). split; [discriminate | reflexivity].
Qed.

Definition tilde_config : config :=
  mkConfig (Some "http://localhost:3000") None (Some "medium") None None
    (Some "~/Videos/mediathek.mp4").

Definition tilde_file_world : World :=
  mkWorld "/home/user" "/work" (fun a b => (a ++ "/" ++ b)%string)
    (Some (Ok "output = ~/Videos/mediathek.mp4")) (fun _ => Ok tilde_config) (Ok tt)
    two_channels two_channels two_channels (fun _ => found only_hd) no_reply
    (fun _ => "document not found") (fun _ => None) "Tatort"
    (fun l => hd no_urls l) (fun d => d) false Download 0
    (fun _ => Ok (mkAsset true "OK")) (Ok tt).

Lemma config_loaded_as_parsed_witness :
  exists c',
    loadConfig tilde_file_world = ([], Ret c') /\
    cfg_output c' = Some "/home/user/Videos/mediathek.mp4".
Proof.
  destruct (config_loaded_as_parsed tilde_file_world
              "output = ~/Videos/mediathek.mp4" tilde_config eq_refl eq_refl)
    as (c' & Hl & _ & _ & _ & _ & _ & Ho & _).
  exists c'. split; [exact Hl|]. exact (Ho _ eq_refl).
Defined.
